(** * Solar Monitor: the analysis core of [src/App.tsx]

    A shallow embedding of the numerical analysis, peak detection,
    scoring and report synthesis performed by the [App] component, and
    the proofs of the properties its specification states.

    Conventions of the embedding.
    - A JavaScript number is a rational [Q]; equality of numbers is
      [Qeq] ([==]).  Comparisons are exact.  The sum and the quotient of
      [getAverage], whose result is compared with thresholds, and the
      divisions of [calculateTravelTimeParts], whose quotient is
      floored, are rounded to the nearest double as the machine does
      ([fl64]); the other arithmetic is exact.  Infinities and [NaN]
      inside sample fields are left out: [fl64] does not overflow.
    - A JavaScript string is a [string] of bytes; the Cyrillic literals
      of the source are kept as their UTF-8 encoding.
    - Code that can raise a [TypeError] (a property read on [undefined])
      lives in an error monad; code that calls a [useState] setter or
      [Math.random] threads a [World]. *)

From Stdlib Require Import NArith ZArith Zquot QArith Qround Qabs Qpower List String Ascii Bool Lia.
From Stdlib Require Import Permutation Sorted Lqa.
Import ListNotations.

Local Open Scope Z_scope.

(* ================================================================== *)
(** ** The JavaScript fragment the component uses *)

Module Js.

(** A reading [curr[key]] of an [any]-typed object: a number, [NaN],
    [undefined] (the key is absent) or [null]. *)
Inductive value : Type :=
| VNum (q : Q)
| VNaN
| VUndefined
| VNull.

(** ToBoolean on such a reading: only a non-zero number is truthy. *)
Definition truthy (v : value) : bool :=
  match v with
  | VNum q => negb (Qeq_bool q 0)
  | _ => false
  end.

(** [v || d] where [d] is a number and [v] is a number or a missing value. *)
Definition orNum (v : value) (d : Q) : Q :=
  match v with
  | VNum q => if Qeq_bool q 0 then d else q
  | _ => d
  end.

(** [a < b], [a > b], [a >= b] on numbers. *)
Definition ltb (a b : Q) : bool := negb (Qle_bool b a).
Definition gtb (a b : Q) : bool := negb (Qle_bool a b).
Definition geb (a b : Q) : bool := Qle_bool b a.

(** [arr[i]]: [undefined] outside [0 .. length-1]. *)
Definition at_ {A : Type} (arr : list A) (i : Z) : option A :=
  if i <? 0 then None else nth_error arr (Z.to_nat i).

(** [o?.f] for a numeric field [f]. *)
Definition optField {A : Type} (o : option A) (f : A -> Q) : value :=
  match o with
  | Some a => VNum (f a)
  | None => VUndefined
  end.

(** [Array.prototype.slice(start, end)]; [end_ = None] is an omitted
    second argument.  A negative bound counts from the end. *)
Definition relIndex (len i : Z) : Z :=
  if i <? 0 then Z.max (len + i) 0 else Z.min i len.

Definition slice {A : Type} (arr : list A) (start : Z) (end_ : option Z) : list A :=
  let len := Z.of_nat (List.length arr) in
  let k := relIndex len start in
  let final := match end_ with Some e => relIndex len e | None => len end in
  firstn (Z.to_nat (Z.max (final - k) 0)) (skipn (Z.to_nat k) arr).

(** [Math.round] and [Math.floor]. *)
Definition Math_floor (x : Q) : Z := Qfloor x.
Definition Math_round (x : Q) : Z := Qfloor (x + (1 # 2)).

(** *** Double-precision rounding *)

(** The integer nearest to [x], the even one of the two on a tie. *)
Definition roundEven (x : Q) : Z :=
  let f := Qfloor x in
  match (x - inject_Z f ?= 1 # 2)%Q with
  | Lt => f
  | Gt => f + 1
  | Eq => if Z.even f then f else f + 1
  end.

(** The exponent of the leading bit of a positive number:
    [2^(ilog2 a) <= a < 2^(ilog2 a + 1)]. *)
Definition ilog2 (a : Q) : Z :=
  let l := Z.log2 (Qnum a) - Z.log2 (Zpos (Qden a)) in
  if Qle_bool (2 ^ l) a then l else l - 1.

(** The double nearest to a positive number, ties to the even mantissa:
    a multiple of [2^e] where [e] leaves 53 bits of mantissa and is not
    below the exponent -1074 of the subnormal numbers. *)
Definition nearest64 (a : Q) : Q :=
  let e := Z.max (-1074) (ilog2 a - 52) in
  (inject_Z (roundEven (a / 2 ^ e)) * 2 ^ e)%Q.

(** The value a binary64 operation stores for the exact result [q]
    (round to nearest, ties to even), in lowest terms. *)
Definition fl64 (q : Q) : Q :=
  match (q ?= 0)%Q with
  | Eq => 0%Q
  | Gt => Qred (nearest64 q)
  | Lt => Qred (- nearest64 (- q))
  end.

(** *** Strings *)

Local Open Scope string_scope.

Definition digitChar (d : N) : ascii := ascii_of_N (48 + d).

(** The decimal digits of [n], most significant first; [fuel] bounds
    their number. *)
Fixpoint digitsOf (fuel : nat) (n : N) : string :=
  match fuel with
  | O => ""
  | S f =>
      (if (n <? 10)%N then "" else digitsOf f (n / 10)%N)
      ++ String (digitChar (n mod 10)%N) ""
  end.

Definition decimal (n : N) : string := digitsOf (S (N.to_nat (N.log2 n))) n.

(** [String(z)] for an integer-valued number (below 1e21, where
    JavaScript switches to the exponent form). *)
Definition numToString (z : Z) : string :=
  if (z <? 0)%Z then "-" ++ decimal (Z.to_N (- z)) else decimal (Z.to_N z).

Fixpoint zeros (k : nat) : string :=
  match k with
  | O => ""
  | S k' => String "0" (zeros k')
  end.

Definition padStart0 (width : nat) (s : string) : string :=
  zeros (width - String.length s) ++ s.

(** [x.toFixed(d)]: the sign, then the integer [n] nearest to
    [|x| * 10^d] (the larger one on a tie) written with the point before
    its last [d] digits. *)
Definition toFixed (x : Q) (d : nat) : string :=
  let sign := if ltb x 0 then "-" else "" in
  let scale := (10 ^ N.of_nat d)%N in
  let n := Z.to_N (Qfloor (Qabs x * inject_Z (Z.of_N scale) + (1 # 2))) in
  let int_part := decimal (n / scale)%N in
  match d with
  | O => sign ++ int_part
  | _ => sign ++ int_part ++ "." ++ padStart0 d (decimal (n mod scale)%N)
  end.

(** The string a template literal shows for a possibly [undefined] string. *)
Definition tpl (o : option string) : string :=
  match o with
  | Some s => s
  | None => "undefined"
  end.

Fixpoint startsWith (s pre : string) {struct pre} : bool :=
  match pre, s with
  | EmptyString, _ => true
  | String p pre', String c s' => Ascii.eqb p c && startsWith s' pre'
  | String _ _, EmptyString => false
  end.

Fixpoint drop (k : nat) (s : string) : string :=
  match k, s with
  | S k', String _ s' => drop k' s'
  | _, _ => s
  end.

(** [s.includes(sub)]. *)
Fixpoint includes (s sub : string) : bool :=
  startsWith s sub
  || match s with
     | String _ s' => includes s' sub
     | EmptyString => false
     end.

(** [s.replace(pat, rep)] with a string pattern: the first occurrence only. *)
Fixpoint replace (s pat rep : string) : string :=
  if startsWith s pat then rep ++ drop (String.length pat) s
  else match s with
       | String c s' => String c (replace s' pat rep)
       | EmptyString => ""
       end.

(** [parts.join(sep)]. *)
Fixpoint join (parts : list string) (sep : string) : string :=
  match parts with
  | [] => ""
  | [p] => p
  | p :: rest => p ++ sep ++ join rest sep
  end.

Definition isDigit (c : ascii) : bool :=
  let n := N_of_ascii c in (48 <=? n)%N && (n <=? 57)%N.

Definition digitVal (c : ascii) : N := (N_of_ascii c - 48)%N.

(** Reads the longest run of digits: their number, their value and the
    rest of the string. *)
Fixpoint readDigits (s : string) (k : nat) (acc : N) : nat * N * string :=
  match s with
  | String c s' =>
      if isDigit c then readDigits s' (S k) (10 * acc + digitVal c)%N
      else (k, acc, s)
  | EmptyString => (k, acc, s)
  end.

Definition isWhiteSpace (c : ascii) : bool :=
  let n := N_of_ascii c in
  (n =? 32)%N || ((9 <=? n)%N && (n <=? 13)%N).

Fixpoint trimStart (s : string) : string :=
  match s with
  | String c s' => if isWhiteSpace c then trimStart s' else s
  | EmptyString => s
  end.

Definition readSign (s : string) : bool * string :=
  match s with
  | String "-" s' => (true, s')
  | String "+" s' => (false, s')
  | _ => (false, s)
  end.

(** The value of an optional exponent part [e<sign><digits>]; 0 when
    there is none. *)
Definition readExponent (s : string) : Z :=
  match s with
  | String c s' =>
      if Ascii.eqb c "e" || Ascii.eqb c "E" then
        let (neg, s'') := readSign s' in
        let '(k, v, _) := readDigits s'' 0 0 in
        if (k =? 0)%nat then 0
        else if neg then - Z.of_N v else Z.of_N v
      else 0
  | EmptyString => 0
  end.

Definition pow10 (e : Z) : Q :=
  if (e <? 0)%Z then (1 / inject_Z (10 ^ (- e)))%Q else inject_Z (10 ^ e).

(** [parseFloat(s)]: the longest prefix of [s], after leading white
    space, that is a decimal literal; [None] is [NaN].  The literal
    [Infinity] is outside the model's numbers. *)
Definition parseFloat (s : string) : option Q :=
  let (neg, s1) := readSign (trimStart s) in
  let '(k, ip, s2) := readDigits s1 0 0 in
  let '(m, fp, s3) :=
    match s2 with
    | String "." s2' => readDigits s2' 0 0
    | _ => (O, 0%N, s2)
    end in
  if (k + m =? 0)%nat then None
  else
    let mant := (inject_Z (Z.of_N ip)
                 + inject_Z (Z.of_N fp) / inject_Z (10 ^ Z.of_nat m))%Q in
    let v := (mant * pow10 (readExponent s3))%Q in
    Some (if neg then (- v)%Q else v).

(** [Array.prototype.sort(cmp)]: a stable sort; [cmp a b < 0] puts [a]
    first.  [x], which stood before the elements of [l], goes in front
    of the first element it does not have to follow. *)
Fixpoint insertBy {A : Type} (cmp : A -> A -> Z) (x : A) (l : list A) : list A :=
  match l with
  | [] => [x]
  | y :: l' => if (0 <? cmp x y)%Z then y :: insertBy cmp x l' else x :: l
  end.

Definition sort {A : Type} (cmp : A -> A -> Z) (l : list A) : list A :=
  fold_right (insertBy cmp) [] l.

(** *** Exceptions *)

Inductive result (A : Type) : Type :=
| Ok (a : A)
| Throw (e : string).
Arguments Ok {A} a.
Arguments Throw {A} e.

(** [o.f] on a value that may be [undefined]: a [TypeError] when it is. *)
Definition prop {A B : Type} (o : option A) (f : A -> B) : result B :=
  match o with
  | Some a => Ok (f a)
  | None => Throw "TypeError: Cannot read properties of undefined"
  end.

(** [for (i of idxs) s = body(s, i)], stopping at the first exception. *)
Fixpoint forEach {S : Type} (idxs : list Z) (body : S -> Z -> result S) (s : S)
    : result S :=
  match idxs with
  | [] => Ok s
  | i :: rest =>
      match body s i with
      | Ok s' => forEach rest body s'
      | Throw e => Throw e
      end
  end.

End Js.

Import Js.

(* ================================================================== *)
(** ** The records of [./types] and the classifier of [./services] *)

(** Modelled from the spec: the declarations of [./types] are not part
    of the sources at hand; the records below are the entities of the
    specification's data model, with the field names App.tsx reads. *)
Module KpDataPoint.
Record t : Type := mk { time : string; kp : Q }.
End KpDataPoint.

Module WindDataPoint.
Record t : Type := mk { time : string; speed : Q; density : Q }.
End WindDataPoint.

Module FlareDataPoint.
Record t : Type := mk { time : string; flux : Q; class : string }.
End FlareDataPoint.

Module ProtonDataPoint.
Record t : Type := mk { time : string; flux : Q }.
End ProtonDataPoint.

Module ForecastDataPoint.
Record t : Type := mk { time : string; kp : Q }.
End ForecastDataPoint.

(** What [fetchSolarData] resolves to. *)
Module SolarData.
Record t : Type := mk {
  kp : list KpDataPoint.t;
  wind : list WindDataPoint.t;
  flares : list FlareDataPoint.t;
  protons : list ProtonDataPoint.t;
  forecast : list ForecastDataPoint.t;
  isDemo : bool
}.
End SolarData.

Module NoaaService.

Local Open Scope string_scope.

(** Modelled from the spec: [getFlareClass] of [./services/noaaService]
    is not part of the sources at hand.  The specification gives the
    decade mapping [<1e-7 -> A], [<1e-6 -> B], [<1e-5 -> C],
    [<1e-4 -> M], [else X], with the mantissa [flux / 10^decade]
    formatted to one decimal. *)
Definition getFlareClass (flux : Q) : string :=
  if ltb flux (1 # 10000000) then "A" ++ toFixed (flux / (1 # 100000000)) 1
  else if ltb flux (1 # 1000000) then "B" ++ toFixed (flux / (1 # 10000000)) 1
  else if ltb flux (1 # 100000) then "C" ++ toFixed (flux / (1 # 1000000)) 1
  else if ltb flux (1 # 10000) then "M" ++ toFixed (flux / (1 # 100000)) 1
  else "X" ++ toFixed (flux / (1 # 10000)) 1.

End NoaaService.

Import NoaaService.

(* ================================================================== *)
(** ** App.tsx *)

Module App.

Local Open Scope string_scope.

(** [getAverage(data, key, count)], lines 77-82.  [key] is the field
    read [curr[key]]; [count] is a non-negative integer (the component
    passes 6 and 12).  Every addition of the [reduce] and the final
    division store a double. *)
Definition getAverage {A : Type} (data : list A) (key : A -> value) (count : nat) : Q :=
  if (List.length data =? 0)%nat then 0%Q
  else
    let slice := slice data (- Z.of_nat count) None in
    let sum :=
      fold_left (fun acc curr => fl64 (acc + orNum (key curr) 0)%Q) slice 0%Q in
    fl64 (sum / inject_Z (Z.of_nat (List.length slice)))%Q.

(** [interface ExtendedFlare extends FlareDataPoint], lines 87-89. *)
Module ExtendedFlare.
Record t : Type := mk {
  time : string;
  flux : Q;
  class : string;
  isSignificant : bool
}.
End ExtendedFlare.

(** The object passed to [setDangerIndex]. *)
Module DangerIndex.
Record t : Type := mk { score : Z; label : string; colorClass : string }.
End DangerIndex.

(** The [useState] cells of the component, lines 93-102 (the two cells
    that only drive hover and modal display are left out). *)
Record AppState : Type := mkAppState {
  kpData : list KpDataPoint.t;
  windData : list WindDataPoint.t;
  flareData : list FlareDataPoint.t;
  forecastData : list ForecastDataPoint.t;
  protonData : list ProtonDataPoint.t;
  detectedFlares : list ExtendedFlare.t;
  loading : bool;
  fetchError : bool;
  report : string;
  dangerIndex : DangerIndex.t
}.

Definition initialState : AppState :=
  {| kpData := []; windData := []; flareData := []; forecastData := [];
     protonData := []; detectedFlares := []; loading := true;
     fetchError := false;
     report := "СИНХРОНИЗАЦИЯ ТЕЛЕМЕТРИИ...";
     dangerIndex := DangerIndex.mk 0 "ЗАГРУЗКА..." "text-gray-500" |}.

(** What a run acts on: the state the next render will see, and the
    outcomes of [Math.random], of which [drawn] are used up. *)
Record World : Type := mkWorld {
  next : AppState;
  random : nat -> Q;
  drawn : nat
}.

(** State and exceptions. *)
Definition M (A : Type) : Type := World -> result (A * World).

Definition ret {A : Type} (a : A) : M A := fun w => Ok (a, w).

Definition bind {A B : Type} (c : M A) (k : A -> M B) : M B :=
  fun w =>
    match c w with
    | Ok (a, w') => k a w'
    | Throw e => Throw e
    end.

Definition lift {A : Type} (r : result A) : M A :=
  fun w =>
    match r with
    | Ok a => Ok (a, w)
    | Throw e => Throw e
    end.

Notation "x <- c ;; k" := (bind c (fun x => k))
  (at level 61, c at next level, right associativity).
Notation "c ;; k" := (bind c (fun _ => k))
  (at level 61, right associativity).

Definition update (f : AppState -> AppState) : M unit :=
  fun w => Ok (tt, mkWorld (f (next w)) (random w) (drawn w)).

Definition setKpData (v : list KpDataPoint.t) : M unit :=
  update (fun s => mkAppState v (windData s) (flareData s) (forecastData s)
    (protonData s) (detectedFlares s) (loading s) (fetchError s) (report s)
    (dangerIndex s)).
Definition setWindData (v : list WindDataPoint.t) : M unit :=
  update (fun s => mkAppState (kpData s) v (flareData s) (forecastData s)
    (protonData s) (detectedFlares s) (loading s) (fetchError s) (report s)
    (dangerIndex s)).
Definition setFlareData (v : list FlareDataPoint.t) : M unit :=
  update (fun s => mkAppState (kpData s) (windData s) v (forecastData s)
    (protonData s) (detectedFlares s) (loading s) (fetchError s) (report s)
    (dangerIndex s)).
Definition setForecastData (v : list ForecastDataPoint.t) : M unit :=
  update (fun s => mkAppState (kpData s) (windData s) (flareData s) v
    (protonData s) (detectedFlares s) (loading s) (fetchError s) (report s)
    (dangerIndex s)).
Definition setProtonData (v : list ProtonDataPoint.t) : M unit :=
  update (fun s => mkAppState (kpData s) (windData s) (flareData s)
    (forecastData s) v (detectedFlares s) (loading s) (fetchError s)
    (report s) (dangerIndex s)).
Definition setDetectedFlares (v : list ExtendedFlare.t) : M unit :=
  update (fun s => mkAppState (kpData s) (windData s) (flareData s)
    (forecastData s) (protonData s) v (loading s) (fetchError s) (report s)
    (dangerIndex s)).
Definition setLoading (v : bool) : M unit :=
  update (fun s => mkAppState (kpData s) (windData s) (flareData s)
    (forecastData s) (protonData s) (detectedFlares s) v (fetchError s)
    (report s) (dangerIndex s)).
Definition setFetchError (v : bool) : M unit :=
  update (fun s => mkAppState (kpData s) (windData s) (flareData s)
    (forecastData s) (protonData s) (detectedFlares s) (loading s) v
    (report s) (dangerIndex s)).
Definition setReport (v : string) : M unit :=
  update (fun s => mkAppState (kpData s) (windData s) (flareData s)
    (forecastData s) (protonData s) (detectedFlares s) (loading s)
    (fetchError s) v (dangerIndex s)).
Definition setDangerIndex (v : DangerIndex.t) : M unit :=
  update (fun s => mkAppState (kpData s) (windData s) (flareData s)
    (forecastData s) (protonData s) (detectedFlares s) (loading s)
    (fetchError s) (report s) v).

(** [Math.random()]. *)
Definition Math_random : M Q :=
  fun w => Ok (random w (drawn w), mkWorld (next w) (random w) (S (drawn w))).

(** [pick(options)], line 85: [undefined] when the index falls outside
    the array. *)
Definition pick (options : list string) : M (option string) :=
  r <- Math_random ;;
  ret (at_ options (Math_floor (r * inject_Z (Z.of_nat (List.length options))))).

(** *** [analyzeData], lines 166-285 *)

(** [val >= b] where [val] came out of [parseFloat]: false on [NaN]. *)
Definition geNaN (val : option Q) (b : Q) : bool :=
  match val with
  | Some q => geb q b
  | None => false
  end.

(** 2. DANGER SCORE CALC, lines 186-202. *)
Definition dangerScore (lastKp avgWind : Q) (avgFlareClass : string) : Z :=
  let score := 0%Z in
  let score :=
    if geb lastKp 7 then (score + 4)%Z
    else if geb lastKp 5 then (score + 3)%Z
    else if geb lastKp 4 then (score + 2)%Z
    else if geb lastKp 3 then (score + 1)%Z
    else score in
  let score :=
    if geb avgWind 700 then (score + 3)%Z
    else if geb avgWind 500 then (score + 2)%Z
    else if geb avgWind 400 then (score + 1)%Z
    else score in
  let score :=
    if includes avgFlareClass "X" then (score + 3)%Z
    else if includes avgFlareClass "M" then
      let val := parseFloat (replace avgFlareClass "M" "") in
      if geNaN val 5 then (score + 2)%Z else (score + 1)%Z
    else score in
  score.

(** Lines 204-209. *)
Definition dangerLabel (score : Z) : DangerIndex.t :=
  let dLabel := "ФОНОВЫЙ" in
  let dColor := "text-[#00e676]" in
  let '(dLabel, dColor) :=
    if (5 <=? score)%Z then ("ВЫСОКИЙ", "text-[#ff1744]")
    else if (3 <=? score)%Z then ("УМЕРЕННЫЙ", "text-[#ffca28]")
    else (dLabel, dColor) in
  DangerIndex.mk score dLabel dColor.

(** Determine Trend, lines 217-221. *)
Definition trendDesc (lastKp prevKp : Q) : string :=
  let kpTrend := (lastKp - prevKp)%Q in
  if gtb kpTrend 0 then "наблюдается тенденция к усилению возмущений."
  else if ltb kpTrend 0 then "фиксируется спад активности."
  else "ситуация стабильна.".

(** SECTION 1: STATUS & TREND, lines 214-234. *)
Definition statusSection (lastKp prevKp : Q) : M string :=
  let trendDesc := trendDesc lastKp prevKp in
  if geb lastKp 7 then
    p <- pick ["Порог стабильности значительно превышен.";
               "Геомагнитное поле испытывает сильную нагрузку."] ;;
    ret ("СТАТУС: Сильная магнитная буря (G3). " ++ tpl p ++ " " ++ trendDesc
         ++ " В средних широтах возможны яркие полярные сияния.")
  else if geb lastKp 5 then
    p <- pick ["Порог геомагнитной стабильности превышен.";
               "Магнитосфера находится в активной фазе сопротивления."] ;;
    ret ("СТАТУС: Умеренная магнитная буря (G1-G2). " ++ tpl p ++ " "
         ++ trendDesc ++ " Это штатный режим работы планетарной защиты.")
  else if geb lastKp 4 then
    p <- pick ["Активность приближается к порогу магнитной бури.";
               "Фиксируются повышенные флуктуации поля."] ;;
    ret ("СТАТУС: Возбужденное состояние магнитосферы (K-index 4). " ++ tpl p
         ++ " " ++ trendDesc
         ++ " Критический порог (G1) на данный момент не преодолен.")
  else if geb lastKp 3 then
    p <- pick ["Наблюдаются незначительные возмущения.";
               "Вариант нормы с легкой нестабильностью."] ;;
    ret ("СТАТУС: Неустойчивое геомагнитное поле. " ++ tpl p ++ " "
         ++ trendDesc ++ " Обстановка благоприятная.")
  else
    p <- pick ["Геомагнитный штиль."; "Спокойная геомагнитная обстановка.";
               "Магнитосфера в состоянии покоя."] ;;
    ret ("СТАТУС: " ++ tpl p
         ++ " Поле стабильно, возмущений не зарегистрировано. Идеальные условия.").

(** Lines 238-242. *)
Definition windTrend (avgWind prevWind : Q) : string :=
  let windDiff := (avgWind - prevWind)%Q in
  if gtb windDiff 50 then "Скорость потока резко растет (приход ударной волны)."
  else if ltb windDiff (-50) then "Скорость ветра снижается."
  else "Скорость потока стабильна.".

(** Lines 247-249. *)
Definition sourceNote (avgProton : Q) : string :=
  if ltb avgProton 10
  then "Ветер усилен, но радиационный фон в норме — признак высокоскоростного потока из корональной дыры (CH HSS)."
  else "Высокая скорость ветра сопровождается ростом протонного фона — вероятно воздействие выброса корональной массы (CME).".

(** SECTION 2: DYNAMICS, lines 237-260.  [windData] is the state cell
    of the render that created the closure, not the [wind] argument. *)
Definition dynamicsSection (windData : list WindDataPoint.t)
    (lastKp avgWind prevWind avgProton : Q) : string :=
  let windTrend := windTrend avgWind prevWind in
  if geb avgWind 500 then
    let sourceNote := sourceNote avgProton in
    if ltb lastKp 4 then
      "ДИНАМИКА: " ++ sourceNote ++ " " ++ windTrend
      ++ " Несмотря на высокие значения скорости ("
      ++ numToString (Math_round avgWind)
      ++ " км/с), текущая конфигурация магнитного поля (Bz North) эффективно блокирует передачу энергии."
    else
      "ДИНАМИКА: " ++ sourceNote ++ " " ++ windTrend ++ " Поток плазмы ("
      ++ numToString (Math_round avgWind)
      ++ " км/с) оказывает давление на магнитосферу, поддерживая активность."
  else
    "ДИНАМИКА: Параметры солнечного ветра (скорость "
    ++ numToString (Math_round avgWind) ++ " км/с, плотность "
    ++ tpl (option_map (fun w => toFixed (WindDataPoint.density w) 1)
              (at_ windData (Z.of_nat (List.length windData) - 1)))
    ++ ") находятся в значениях, близких к фоновым. " ++ windTrend.

(** SECTION 3: FORECAST, lines 263-271. *)
Definition forecastSection (nextForecastKp lastKp : Q) : M string :=
  if gtb nextForecastKp lastKp then
    p <- pick ["усиление геомагнитной активности"; "рост Kp-индекса"] ;;
    ret ("ПРОГНОЗ: Модель NOAA прогнозирует " ++ tpl p
         ++ " в ближайшие 3-6 часов.")
  else if ltb nextForecastKp lastKp && geb lastKp 4 then
    p <- pick ["стабилизация обстановки"; "постепенное снижение активности";
               "затухание возмущений"] ;;
    ret ("ПРОГНОЗ: Ожидается " ++ tpl p ++ " в ближайшие часы.")
  else
    ret "ПРОГНОЗ: Согласно моделям, существенных изменений не предвидится. Сохранение текущего тренда.".

(** SECTION 4: PHYSICS & RADIATION, lines 274-282.  [protonData] is the
    state cell of the render that created the closure. *)
Definition physicsSection (protonData : list ProtonDataPoint.t)
    (avgFlareClass : string) (avgProton : Q) : string :=
  if includes avgFlareClass "X" then
    "ФИЗИКА: Внимание! Зарегистрирован мощный рентгеновский всплеск (Класс X). Возможны краткосрочные перебои КВ-радиосвязи на дневной стороне Земли. Радиационная угроза для поверхности отсутствует."
  else if geb avgProton 10 then
    "ФИЗИКА: Фиксируется протонное событие (S-Scale). Поток частиц высоких энергий повышен ("
    ++ tpl (option_map (fun p => toFixed (ProtonDataPoint.flux p) 0)
              (at_ protonData (Z.of_nat (List.length protonData) - 1)))
    ++ " pfu). Влияние ограничено космическими аппаратами и полярными трассами."
  else
    "ФИЗИКА: Рентгеновское и протонное излучение Солнца находится на минимальных значениях (Фон). Радиационная обстановка в норме.".

(** 1. DATA SNAPSHOTS, lines 174-184. *)
Definition lastKpOf (kp : list KpDataPoint.t) : Q :=
  orNum (optField (at_ kp (Z.of_nat (List.length kp) - 1)) KpDataPoint.kp) 0.

Definition prevKpOf (kp : list KpDataPoint.t) : Q :=
  orNum (optField (at_ kp (Z.of_nat (List.length kp) - 2)) KpDataPoint.kp)
        (lastKpOf kp).

Definition speedKey (w : WindDataPoint.t) : value := VNum (WindDataPoint.speed w).
Definition fluxKey (f : FlareDataPoint.t) : value := VNum (FlareDataPoint.flux f).
Definition protonKey (p : ProtonDataPoint.t) : value := VNum (ProtonDataPoint.flux p).

Definition avgWindOf (wind : list WindDataPoint.t) : Q :=
  getAverage wind speedKey 6.

(** [getAverage(wind.slice(0, -6), 'speed', 6) || avgWind]. *)
Definition prevWindOf (wind : list WindDataPoint.t) : Q :=
  orNum (VNum (getAverage (slice wind 0 (Some (-6)%Z)) speedKey 6))
        (avgWindOf wind).

Definition nextForecastKpOf (forecast : list ForecastDataPoint.t) (lastKp : Q)
    : result Q :=
  if (1 <? Z.of_nat (List.length forecast))%Z
  then prop (at_ forecast 1) ForecastDataPoint.kp
  else Ok lastKp.

Definition newline : string := String (ascii_of_nat 10) "".

(** [analyzeData] as a closure of the render whose state is [render]. *)
Definition analyzeData (render : AppState)
    (kp : list KpDataPoint.t) (wind : list WindDataPoint.t)
    (flares : list FlareDataPoint.t) (protons : list ProtonDataPoint.t)
    (forecast : list ForecastDataPoint.t) : M unit :=
  let lastKp := lastKpOf kp in
  let prevKp := prevKpOf kp in
  let avgWind := avgWindOf wind in
  let prevWind := prevWindOf wind in
  let avgFlux := getAverage flares fluxKey 12 in
  let avgProton := getAverage protons protonKey 6 in
  let avgFlareClass := getFlareClass avgFlux in
  nextForecastKp <- lift (nextForecastKpOf forecast lastKp) ;;
  let score := dangerScore lastKp avgWind avgFlareClass in
  setDangerIndex (dangerLabel score) ;;
  statusText <- statusSection lastKp prevKp ;;
  let dynText :=
    dynamicsSection (windData render) lastKp avgWind prevWind avgProton in
  forecastText <- forecastSection nextForecastKp lastKp ;;
  let physText := physicsSection (protonData render) avgFlareClass avgProton in
  setReport (join [statusText; dynText; forecastText; physText]
                  (newline ++ newline)).

(** *** [loadData], lines 107-146 *)

Definition threshold : Q := 1 # 100000000.

(** The body of the loop of lines 128-140 at index [i]. *)
Definition peakStep (flares : list FlareDataPoint.t)
    (peaks : list ExtendedFlare.t) (i : Z) : result (list ExtendedFlare.t) :=
  match at_ flares (i - 1), at_ flares i, at_ flares (i + 1) with
  | Some p, Some c, Some n =>
      let prev := FlareDataPoint.flux p in
      let curr := FlareDataPoint.flux c in
      let next := FlareDataPoint.flux n in
      if gtb curr prev && gtb curr next && gtb curr threshold then
        let isSignificant := geb curr (1 # 1000000) in
        Ok (peaks ++ [ExtendedFlare.mk (FlareDataPoint.time c)
                        (FlareDataPoint.flux c) (FlareDataPoint.class c)
                        isSignificant])%list
      else Ok peaks
  | _, _, _ => Throw "TypeError: Cannot read properties of undefined"
  end.

(** [for (let i = 1; i < flares.length - 1; i++)]. *)
Definition detectPeaks (flares : list FlareDataPoint.t)
    : result (list ExtendedFlare.t) :=
  forEach (map Z.of_nat (seq 1 (List.length flares - 2))) (peakStep flares) [].

Section Render.

(** [new Date(s).getTime()] on the timestamps the service delivers. *)
Variable Date_getTime : string -> Z.

(** The comparator of line 142. *)
Definition byTimeDesc (a b : ExtendedFlare.t) : Z :=
  (Date_getTime (ExtendedFlare.time b) - Date_getTime (ExtendedFlare.time a))%Z.

(** [loadData] as a closure of the render whose state is [render], once
    [fetchSolarData] has resolved to [result]. *)
Definition loadData (render : AppState) (document_hidden : bool)
    (result : SolarData.t) : M unit :=
  if document_hidden then ret tt
  else
    setLoading true ;;
    setFetchError (SolarData.isDemo result) ;;
    setKpData (SolarData.kp result) ;;
    setWindData (SolarData.wind result) ;;
    setFlareData (SolarData.flares result) ;;
    setForecastData (SolarData.forecast result) ;;
    setProtonData (SolarData.protons result) ;;
    analyzeData render (SolarData.kp result) (SolarData.wind result)
      (SolarData.flares result) (SolarData.protons result)
      (SolarData.forecast result) ;;
    peaks <- lift (detectPeaks (SolarData.flares result)) ;;
    let sortedPeaks := sort byTimeDesc peaks in
    setDetectedFlares sortedPeaks ;;
    setLoading false.

End Render.

(** *** The values derived at render, lines 287-328 *)

Definition currentWind (s : AppState) : Q :=
  orNum (optField (at_ (windData s) (Z.of_nat (List.length (windData s)) - 1))
                  WindDataPoint.speed) 0.

Definition currentProtonFlux (s : AppState) : Q :=
  orNum (optField (at_ (protonData s) (Z.of_nat (List.length (protonData s)) - 1))
                  ProtonDataPoint.flux) 0.


(** [flareData[flareData.length - 1]?.class || "A0.0"], line 295: the
    empty string is falsy too. *)
Definition currentFlareClass (s : AppState) : string :=
  match at_ (flareData s) (Z.of_nat (List.length (flareData s)) - 1) with
  | Some f =>
      match FlareDataPoint.class f with
      | EmptyString => "A0.0"
      | c => c
      end
  | None => "A0.0"
  end.

Definition isFlareHigh (s : AppState) : bool :=
  includes (currentFlareClass s) "M" || includes (currentFlareClass s) "X".

(** SCIENTIFIC SOURCE DETECTION, lines 324-328. *)
Definition isHighWind (s : AppState) : bool := gtb (currentWind s) 500.
Definition isProtonStorm (s : AppState) : bool := geb (currentProtonFlux s) 10.
Definition isCMESource (s : AppState) : bool :=
  isHighWind s && isProtonStorm s.

End App.

Import App.

(* ================================================================== *)
(** ** More of the JavaScript fragment *)

Module JsMath.

(** [Math.max], [Math.min], [Math.abs]. *)
Definition Math_max (a b : Q) : Q := if Qle_bool a b then b else a.
Definition Math_min (a b : Q) : Q := if Qle_bool a b then a else b.

(** The integer part of a number, towards zero. *)
Definition truncate (x : Q) : Z :=
  if Qle_bool 0 x then Qfloor x else Qceiling x.

(** [x % y] on numbers: the remainder has the sign of [x]. *)
Definition rem (x y : Q) : Q := (x - inject_Z (truncate (x / y)) * y)%Q.

End JsMath.

Import JsMath.

(* ================================================================== *)
(** ** App.tsx: the helpers and render values outside the analysis *)

Module AppView.

Local Open Scope string_scope.

(** The object [calculateTravelTimeParts] returns. *)
Module TravelTime.
Record t : Type := mk { hours : Z; minutes : Z }.
End TravelTime.

(** [calculateTravelTimeParts(speedKmS)], lines 63-74.  Each of the
    three divisions stores a double; [%] on two whole numbers is exact. *)
Definition calculateTravelTimeParts (speedKmS : Q) : TravelTime.t :=
  if Qle_bool speedKmS 0 then TravelTime.mk 0 0
  else
    let distanceKm := 1500000%Q in
    let totalSeconds := fl64 (distanceKm / speedKmS) in
    let totalMinutes := Math_floor (fl64 (totalSeconds / 60)) in
    let hours := Math_floor (fl64 (inject_Z totalMinutes / 60)) in
    let minutes := Z.rem totalMinutes 60 in
    TravelTime.mk hours minutes.

(** Lines 288-296. *)
Definition currentKp (s : AppState) : Q :=
  orNum (optField (at_ (kpData s) (Z.of_nat (List.length (kpData s)) - 1))
                  KpDataPoint.kp) 0.

Definition currentDensity (s : AppState) : Q :=
  orNum (optField (at_ (windData s) (Z.of_nat (List.length (windData s)) - 1))
                  WindDataPoint.density) 0.

Definition currentFlareFlux (s : AppState) : Q :=
  orNum (optField (at_ (flareData s) (Z.of_nat (List.length (flareData s)) - 1))
                  FlareDataPoint.flux) 0.

(** [travelInfo], line 301, and the text shown for it, line 577. *)
Definition travelInfo (s : AppState) : TravelTime.t :=
  calculateTravelTimeParts (currentWind s).

Definition travelText (s : AppState) : string :=
  if (0 <? TravelTime.hours (travelInfo s))%Z
  then numToString (TravelTime.hours (travelInfo s)) ++ "ч "
       ++ numToString (TravelTime.minutes (travelInfo s)) ++ "м"
  else numToString (TravelTime.minutes (travelInfo s)) ++ " мин".

(** Lines 306-308. *)
Definition intensityDesc (s : AppState) : string :=
  let intensityDesc := "НИЗКАЯ" in
  let intensityDesc :=
    if includes (currentFlareClass s) "M" then "УМЕРЕННАЯ" else intensityDesc in
  let intensityDesc :=
    if includes (currentFlareClass s) "X" then "ВЫСОКАЯ" else intensityDesc in
  intensityDesc.

(** Proton Logic, lines 313-321: the scale and its colour. *)
Definition protonScale (s : AppState) : string * string :=
  let currentProtonFlux := currentProtonFlux s in
  if geb currentProtonFlux 100000 then ("S5 (Экстремально)", "text-red-600")
  else if geb currentProtonFlux 10000 then ("S4 (Жесткий)", "text-red-500")
  else if geb currentProtonFlux 1000 then ("S3 (Сильный)", "text-red-400")
  else if geb currentProtonFlux 100 then ("S2 (Умеренный)", "text-yellow-400")
  else if geb currentProtonFlux 10 then ("S1 (Слабый)", "text-yellow-200")
  else ("S0 (Фон)", "text-green-400").

(** AURORA TEXT, lines 331-335: probability text and locations. *)
Definition auroraText (s : AppState) : string * string :=
  let currentKp := currentKp s in
  let auroraProbText := "Вероятность только в полярных широтах." in
  let auroraLocations := "Шпицберген, Северная Земля" in
  let '(auroraProbText, auroraLocations) :=
    if geb currentKp 3
    then ("Возможно наблюдение в высоких широтах.", "Мурманск, Тромсё, Рейкьявик")
    else (auroraProbText, auroraLocations) in
  let '(auroraProbText, auroraLocations) :=
    if geb currentKp 5
    then ("Высокая вероятность в средних широтах.",
          "Санкт-Петербург, Хельсинки, Осло, Минск")
    else (auroraProbText, auroraLocations) in
  let '(auroraProbText, auroraLocations) :=
    if geb currentKp 7
    then ("Экстремальная видимость. Южные регионы.", "Москва, Казань, Берлин, Минск")
    else (auroraProbText, auroraLocations) in
  (auroraProbText, auroraLocations).

(** The badges of the Kp card, lines 410 and 414. *)
Definition kpBadge (s : AppState) : string :=
  if geb (currentKp s) 5 then "БУРЯ"
  else if geb (currentKp s) 4 then "Возбуждение"
  else "Спокойно".

End AppView.

Import AppView.

(* ================================================================== *)
(** ** components/ProtonGraph.tsx *)

Module ProtonGraph.

Local Open Scope string_scope.



(** Satellite (GPS), lines 103-109: status, colour, jitter. *)
Definition satellite (flux : Q) : string * string * Q :=
  let '(satStatus, satColor, satJitter) := ("OK", "#00bcd4", 0%Q) in
  let '(satStatus, satColor, satJitter) :=
    if geb flux 100 then ("WARN", "#ffca28", satJitter)
    else (satStatus, satColor, satJitter) in
  let '(satStatus, satColor, satJitter) :=
    if geb flux 1000 then ("FAIL", "#ff1744", 2%Q)
    else (satStatus, satColor, satJitter) in
  let '(satStatus, satColor, satJitter) :=
    if geb flux 10000 then ("CRIT", "#ff1744", 5%Q)
    else (satStatus, satColor, satJitter) in
  (satStatus, satColor, satJitter).

(** Plane (Atmosphere), lines 112-115. *)
Definition plane (flux : Q) : string * string :=
  let '(planeStatus, planeColor) := ("OK", "#00e676") in
  let '(planeStatus, planeColor) :=
    if geb flux 1000 then ("WARN", "#ffca28") else (planeStatus, planeColor) in
  let '(planeStatus, planeColor) :=
    if geb flux 10000 then ("RISK", "#ff1744") else (planeStatus, planeColor) in
  (planeStatus, planeColor).

(** The two tests of [drawSatellite] for the failure cross, lines
    170-171.  [now] is [Date.now()], a whole number of milliseconds:
    the cross blinks, drawn in every other slot of 200 ms. *)
Definition crossed (status : string) (now : Z) : bool :=
  if String.eqb status "FAIL" || String.eqb status "CRIT"
  then (Z.rem (Math_floor (inject_Z now / 200)) 2 =? 0)%Z
  else false.

(** The colour of the particle rain, lines 79-80. *)
Definition strokeStyle (flux : Q) : string :=
  let strokeStyle := if geb flux 100 then "#ffff00" else "#00e676" in
  if geb flux 1000 then "#ff1744" else strokeStyle.



End ProtonGraph.

(* ================================================================== *)
(** ** components/AuroraMap.tsx *)

Module AuroraMap.

(** PROJECTION CONFIG, lines 67-68. *)
Definition MIN_LAT : Q := 35.
Definition MAX_LAT : Q := 88.

(** [project(lat, lon, w, h)], lines 70-78: the point [(x, y)]. *)
Definition project (lat lon w h : Q) : Q * Q :=
  let cLat := Math_max MIN_LAT (Math_min MAX_LAT lat) in
  let x := ((lon + 180) / 360 * w)%Q in
  let y := ((MAX_LAT - cLat) / (MAX_LAT - MIN_LAT) * h)%Q in
  (x, y).





Definition centerLat (kp : Q) : Q := (82 - kp * (15 # 10))%Q.



(** The latitude of the oval at a longitude, line 160; [magFactor] and
    [nightFactor] are the cosines of lines 153 and 157. *)
Definition auroraLat (kp magFactor nightFactor : Q) : Q :=
  (74 - kp * 2 - magFactor * 4 + nightFactor * 3)%Q.

(** Whether the loop of line 151 draws the slice at this latitude
    (line 162 skips it otherwise). *)
Definition drawsSlice (lat : Q) : bool := negb (ltb lat MIN_LAT).


(** PROBABILITY INTENSITY and hue, lines 173-181. *)
Definition intensity (nightFactor : Q) : Q :=
  (3 # 10) + Math_max 0 nightFactor * (7 # 10).
Definition kpStrength (kp : Q) : Q := Math_min 1 (kp / 7).
Definition hue (kp : Q) : Q :=
  let baseHue := 140%Q in
  let stormHue := 60%Q in
  (baseHue - kpStrength kp * (baseHue - stormHue))%Q.




(** Whether a city is drawn at all, line 205. *)
Definition onMap (cityLat : Q) : bool :=
  negb (ltb cityLat MIN_LAT || gtb cityLat MAX_LAT).

End AuroraMap.

(* ================================================================== *)
(** ** Reference notions the statements use *)

Local Open Scope Q_scope.



(** The sum of a list of numbers as double arithmetic gives it: the
    numbers are added from left to right, starting from 0, and every
    partial sum is rounded to the nearest double. *)
Definition sum64 (l : list Q) : Q :=
  fold_left (fun acc x => fl64 (acc + x)) l 0.

(** The mean of a list of numbers as double arithmetic gives it: the
    rounded sum divided by the number of elements, rounded again; 0 when
    there is no element. *)
Definition mean64 (l : list Q) : Q :=
  match l with
  | [] => 0
  | _ :: _ => fl64 (sum64 l / inject_Z (Z.of_nat (List.length l)))
  end.

(** The last [n] elements of [l] (all of [l] when it has fewer). *)
Definition lastN {A : Type} (n : nat) (l : list A) : list A :=
  skipn (List.length l - n) l.

(** The number a reading stands for when it is one. *)
Definition numOf (v : value) : Q :=
  match v with
  | VNum q => q
  | _ => 0%Q
  end.



(** The identity key, for series of bare readings. *)
Definition reading (v : value) : value := v.

(** A world for the examples: fresh state, every draw 0.7. *)
Definition world0 : World := mkWorld initialState (fun _ => 7 # 10) 0.

(** A quiet Kp series and a forecast that rises in the next bucket. *)
Definition kpQuiet : list KpDataPoint.t :=
  [KpDataPoint.mk "09:00" 3; KpDataPoint.mk "12:00" 3].
Definition forecastRising : list ForecastDataPoint.t :=
  [ForecastDataPoint.mk "12:00" 3; ForecastDataPoint.mk "15:00" 5].

(** A detected flare: the sample with its significance tag. *)
Definition tagged (c : FlareDataPoint.t) : ExtendedFlare.t :=
  ExtendedFlare.mk (FlareDataPoint.time c) (FlareDataPoint.flux c)
    (FlareDataPoint.class c) (geb (FlareDataPoint.flux c) (1 # 1000000)).

(** A sample is a local maximum when its flux is strictly above both
    neighbours and strictly above the noise threshold. *)
Definition localMax (p c n : FlareDataPoint.t) : bool :=
  gtb (FlareDataPoint.flux c) (FlareDataPoint.flux p)
  && gtb (FlareDataPoint.flux c) (FlareDataPoint.flux n)
  && gtb (FlareDataPoint.flux c) threshold.

(** The peaks as the specification words them: the interior samples
    that are local maxima, in series order. *)
Fixpoint interiorPeaks (l : list FlareDataPoint.t) : list ExtendedFlare.t :=
  match l with
  | p :: rest =>
      match rest with
      | c :: n :: _ =>
          (if localMax p c n then [tagged c] else []) ++ interiorPeaks rest
      | _ => []
      end
  | [] => []
  end.

(** The world once [loadData] has stored the fetched series, before it
    calls [analyzeData]. *)
Definition stored (result : SolarData.t) (w : World) : World :=
  mkWorld
    (mkAppState (SolarData.kp result) (SolarData.wind result)
       (SolarData.flares result) (SolarData.forecast result)
       (SolarData.protons result) (detectedFlares (next w)) true
       (SolarData.isDemo result) (report (next w)) (dangerIndex (next w)))
    (random w) (drawn w).







(** The state the page renders after a load that stored [wind] and
    [protons]. *)
Definition shown (wind : list WindDataPoint.t)
    (protons : list ProtonDataPoint.t) : AppState :=
  mkAppState [] wind [] [] protons [] false false "" (dangerIndex initialState).

Definition windOf (speeds : list Q) : list WindDataPoint.t :=
  map (fun v => WindDataPoint.mk "00:00" v 5) speeds.
Definition protonsOf (fluxes : list Q) : list ProtonDataPoint.t :=
  map (ProtonDataPoint.mk "00:00") fluxes.

(** A snapshot with one slow wind sample (density 5.0) and nothing
    else, and the state of a render that still holds the wind series of
    an earlier cycle (density 9.9). *)
Definition quietSnapshot : SolarData.t :=
  SolarData.mk [] (windOf [400]) [] [] [] false.
Definition earlierCycle : AppState :=
  shown [WindDataPoint.mk "23:55" 700 (99 # 10)] (protonsOf []).

(** Strings of digits and the number they spell after [acc]. *)
Fixpoint allDigits (s : string) : bool :=
  match s with
  | EmptyString => true
  | String c s' => isDigit c && allDigits s'
  end.

Fixpoint valueFrom (acc : N) (ds : string) : N :=
  match ds with
  | EmptyString => acc
  | String c s' => valueFrom (10 * acc + digitVal c)%N s'
  end.

Definition headNotDigit (s : string) : bool :=
  match s with
  | String c _ => negb (isDigit c)
  | EmptyString => true
  end.

(** [c] occurs in [s]. *)
Fixpoint mem (c : ascii) (s : string) : bool :=
  match s with
  | EmptyString => false
  | String d s' => Ascii.eqb c d || mem c s'
  end.

(** The score tables as the specification words them. *)
Definition kpContribution (kp : Q) : Z :=
  if Qle_bool 7 kp then 4
  else if Qle_bool 5 kp then 3
  else if Qle_bool 4 kp then 2
  else if Qle_bool 3 kp then 1
  else 0.

Definition windContribution (avgSpeed : Q) : Z :=
  if Qle_bool 700 avgSpeed then 3
  else if Qle_bool 500 avgSpeed then 2
  else if Qle_bool 400 avgSpeed then 1
  else 0.

(** The letter of a flare class, by decade of flux. *)
Inductive FlareLetter : Type := LA | LB | LC | LM | LX.

Definition flareLetter (flux : Q) : FlareLetter :=
  if ltb flux (1 # 10000000) then LA
  else if ltb flux (1 # 1000000) then LB
  else if ltb flux (1 # 100000) then LC
  else if ltb flux (1 # 10000) then LM
  else LX.

(** [x] rounded to one decimal, halves up: the number [toFixed(1)]
    prints for a non-negative [x]. *)
Definition roundTenth (x : Q) : Q :=
  inject_Z (Qfloor (x * 10 + (1 # 2))) / 10.

(** The mantissa shown in an M class: [flux / 1e-5] to one decimal. *)
Definition mantissaM (flux : Q) : Q := roundTenth (flux / (1 # 100000)).

Definition flareContribution (flux : Q) : Z :=
  match flareLetter flux with
  | LX => 3
  | LM => if Qle_bool 5 (mantissaM flux) then 2 else 1
  | _ => 0
  end.

(** Severity of a flare class: first the letter, then the mantissa. *)
Definition letterRank (l : FlareLetter) : Z :=
  match l with
  | LA => 0
  | LB => 1
  | LC => 2
  | LM => 3
  | LX => 4
  end.

(** What the flare rule of [dangerScore] adds for a class string. *)
Definition flarePart (avgFlareClass : string) : Z :=
  if includes avgFlareClass "X" then 3
  else if includes avgFlareClass "M" then
    if geNaN (parseFloat (replace avgFlareClass "M" "")) 5 then 2 else 1
  else 0.


(** The whole minutes a travel time stands for. *)
Definition travelMinutes (t : TravelTime.t) : Z :=
  (60 * TravelTime.hours t + TravelTime.minutes t)%Z.





(** The storm level a status paragraph opens with, as the score
    counts it: G3 is 4, G1-G2 is 3, K-index 4 is 2, unsettled is 1. *)
Definition statusTier (statusText : string) : Z :=
  if startsWith statusText "СТАТУС: Сильная магнитная буря (G3)." then 4
  else if startsWith statusText "СТАТУС: Умеренная магнитная буря (G1-G2)."
  then 3
  else if startsWith statusText
            "СТАТУС: Возбужденное состояние магнитосферы (K-index 4)."
  then 2
  else if startsWith statusText "СТАТУС: Неустойчивое геомагнитное поле."
  then 1
  else 0.

(** The state of a page whose last proton sample has the given flux. *)
Definition protonState (flux : Q) : AppState :=
  shown [] (protonsOf [flux]).

(** [Math.random] returns a number of [0, 1). *)
Definition fairRandom (w : World) : Prop :=
  forall n, 0 <= random w n /\ random w n < 1.

(** The world after one draw. *)
Definition advance (w : World) : World :=
  mkWorld (next w) (random w) (S (drawn w)).

(** The sentences of the forecast section, by outlook. *)
Definition riseSentences : list string :=
  map (fun p => "ПРОГНОЗ: Модель NOAA прогнозирует " ++ p
                ++ " в ближайшие 3-6 часов.")%string
      ["усиление геомагнитной активности"; "рост Kp-индекса"]%string.

Definition declineSentences : list string :=
  map (fun p => "ПРОГНОЗ: Ожидается " ++ p ++ " в ближайшие часы.")%string
      ["стабилизация обстановки"; "постепенное снижение активности";
       "затухание возмущений"]%string.

Definition noChangeSentence : string :=
  "ПРОГНОЗ: Согласно моделям, существенных изменений не предвидится. Сохранение текущего тренда."%string.

(** The paragraph separator of the report. *)
Definition blankLine : string := (newline ++ newline)%string.

(* ================================================================== *)
(** ** Rounding to a double *)

Ltac compare_facts :=
  repeat match goal with
  | H : (_ ?= _) = Eq |- _ => apply (proj2 (Qeq_alt _ _)) in H
  | H : (_ ?= _) = Lt |- _ => apply (proj2 (Qlt_alt _ _)) in H
  | H : (_ ?= _) = Gt |- _ => apply (proj2 (Qgt_alt _ _)) in H
  end.

Lemma roundEven_cases (x : Q) :
  (roundEven x = Qfloor x /\ x - inject_Z (Qfloor x) <= 1 # 2)
  \/ (roundEven x = (Qfloor x + 1)%Z /\ 1 # 2 <= x - inject_Z (Qfloor x)).
Proof.
  unfold roundEven.
  destruct (x - inject_Z (Qfloor x) ?= 1 # 2) eqn:E.
  - apply Qeq_alt in E. destruct (Z.even (Qfloor x)); [left | right];
      (split; [reflexivity | rewrite E; apply Qle_refl]).
  - apply Qlt_alt in E. left. split; [reflexivity | apply Qlt_le_weak, E].
  - apply Qgt_alt in E. right. split; [reflexivity | apply Qlt_le_weak, E].
Qed.

Lemma roundEven_Z (z : Z) : roundEven (inject_Z z) = z.
Proof.
  unfold roundEven. rewrite Qfloor_Z.
  replace (inject_Z z - inject_Z z ?= 1 # 2) with Lt; [reflexivity |].
  symmetry. apply Qlt_alt. setoid_replace (inject_Z z - inject_Z z) with 0 by ring.
  reflexivity.
Qed.

Lemma roundEven_mono (x y : Q) : x <= y -> (roundEven x <= roundEven y)%Z.
Proof.
  intros Hxy.
  pose proof (Qfloor_resp_le x y Hxy) as Hf.
  destruct (Z.eq_dec (Qfloor x) (Qfloor y)) as [Heq | Hne].
  - unfold roundEven. rewrite <- Heq.
    set (fx := inject_Z (Qfloor x)). clearbody fx.
    destruct (x - fx ?= 1 # 2) eqn:Ex; destruct (y - fx ?= 1 # 2) eqn:Ey;
      try (destruct (Z.even (Qfloor x))); try lia;
      exfalso; compare_facts; lra.
  - destruct (roundEven_cases x) as [[-> _] | [-> _]];
      destruct (roundEven_cases y) as [[-> _] | [-> _]]; lia.
Qed.

Lemma roundEven_compat (x y : Q) : x == y -> roundEven x = roundEven y.
Proof.
  intros E. apply Z.le_antisymm; apply roundEven_mono; rewrite E; apply Qle_refl.
Qed.

Lemma roundEven_nonneg (x : Q) : 0 <= x -> (0 <= roundEven x)%Z.
Proof.
  intros H. change 0%Z with (roundEven (inject_Z 0)) at 1.
  rewrite roundEven_Z. change 0%Z with (roundEven (inject_Z 0)).
  apply roundEven_mono. exact H.
Qed.

Lemma pow2_pos (k : Z) : 0 < 2 ^ k.
Proof. apply Qpower_0_lt. reflexivity. Qed.

Lemma pow2_plus (n m : Z) : 2 ^ (n + m) == 2 ^ n * 2 ^ m.
Proof. apply Qpower_plus. discriminate. Qed.

Lemma pow2_le (n m : Z) : (n <= m)%Z -> 2 ^ n <= 2 ^ m.
Proof. intros H. apply Qpower_le_compat_l; [exact H | discriminate]. Qed.

Lemma pow2_lt (n m : Z) : (n < m)%Z -> 2 ^ n < 2 ^ m.
Proof. intros H. apply Qpower_lt_compat_l; [exact H | reflexivity]. Qed.

Lemma pow2_succ (n : Z) : 2 ^ (n + 1) == 2 * 2 ^ n.
Proof. rewrite pow2_plus. change (2 ^ 1) with 2. ring. Qed.

Lemma pow2_inject (n : Z) : (0 <= n)%Z -> inject_Z (2 ^ n) == 2 ^ n.
Proof. intros H. rewrite Zpower_Qpower by exact H. reflexivity. Qed.

Lemma log2_bounds (n : Z) :
  (0 < n)%Z -> 2 ^ Z.log2 n <= inject_Z n /\ inject_Z n < 2 * 2 ^ Z.log2 n.
Proof.
  intros Hn. destruct (Z.log2_spec n Hn) as [Hlo Hhi].
  pose proof (Z.log2_nonneg n) as H0.
  rewrite <- pow2_succ, <- !pow2_inject by lia.
  rewrite <- Zle_Qle, <- Zlt_Qlt. unfold Z.succ in Hhi. split; assumption.
Qed.

Lemma ilog2_spec (a : Q) : 0 < a -> 2 ^ ilog2 a <= a /\ a < 2 ^ (ilog2 a + 1).
Proof.
  intros Ha. unfold ilog2.
  destruct a as [n d]. cbn [Qnum Qden].
  assert (Hn : (0 < n)%Z).
  { unfold Qlt in Ha. cbn in Ha. lia. }
  destruct (log2_bounds n Hn) as [Hn1 Hn2].
  destruct (log2_bounds (Zpos d) (Pos2Z.is_pos d)) as [Hd1 Hd2].
  set (ln := Z.log2 n) in *. set (ld := Z.log2 (Zpos d)) in *.
  assert (HP : 2 ^ ln == 2 ^ (ln - ld) * 2 ^ ld).
  { rewrite <- pow2_plus. replace (ln - ld + ld)%Z with ln by lia. reflexivity. }
  pose proof (pow2_pos ld) as Hpd. pose proof (pow2_pos (ln - ld)) as Hpl.
  assert (Ea : inject_Z n == (n # d) * inject_Z (Zpos d)).
  { rewrite (Qmake_Qdiv n d). field. discriminate. }
  set (N := inject_Z n) in *. set (D := inject_Z (Zpos d)) in *.
  set (a := n # d) in *. set (P := 2 ^ ld) in *. set (L := 2 ^ (ln - ld)) in *.
  rewrite HP in Hn1, Hn2. rewrite Ea in Hn1, Hn2.
  destruct (Qle_bool L a) eqn:E.
  - apply Qle_bool_iff in E. split; [exact E |].
    rewrite pow2_succ. fold L.
    apply Qnot_le_lt. intros C.
    assert (2 * L * P <= a * D). { apply Qle_trans with (a * P); nra. }
    nra.
  - assert (E' : a < L).
    { apply Qnot_le_lt. intros C. apply Qle_bool_iff in C. congruence. }
    replace (ln - ld - 1 + 1)%Z with (ln - ld)%Z by lia. fold L.
    split; [| exact E'].
    assert (HL : L == 2 * 2 ^ (ln - ld - 1)).
    { rewrite <- pow2_succ. replace (ln - ld - 1 + 1)%Z with (ln - ld)%Z by lia.
      reflexivity. }
    apply Qnot_lt_le. intros C.
    assert (a * D < L * P). { apply Qlt_le_trans with (a * (2 * P)); nra. }
    nra.
Qed.

Lemma ilog2_unique (a : Q) (k : Z) : 2 ^ k <= a -> a < 2 ^ (k + 1) -> ilog2 a = k.
Proof.
  intros Hlo Hhi.
  assert (Ha : 0 < a) by (apply Qlt_le_trans with (2 ^ k); [apply pow2_pos | exact Hlo]).
  destruct (ilog2_spec a Ha) as [Hl Hh].
  assert (H1 : (ilog2 a < k + 1)%Z).
  { apply Qpower_lt_compat_l_inv with 2; [| reflexivity].
    apply Qle_lt_trans with a; assumption. }
  assert (H2 : (k < ilog2 a + 1)%Z).
  { apply Qpower_lt_compat_l_inv with 2; [| reflexivity].
    apply Qle_lt_trans with a; assumption. }
  lia.
Qed.

Lemma ilog2_mono (a b : Q) : 0 < a -> a <= b -> (ilog2 a <= ilog2 b)%Z.
Proof.
  intros Ha Hab.
  assert (Hb : 0 < b) by (apply Qlt_le_trans with a; assumption).
  destruct (ilog2_spec a Ha) as [Hl _]. destruct (ilog2_spec b Hb) as [_ Hh].
  assert (H : (ilog2 a < ilog2 b + 1)%Z).
  { apply Qpower_lt_compat_l_inv with 2; [| reflexivity].
    apply Qle_lt_trans with a; [exact Hl |]. apply Qle_lt_trans with b; assumption. }
  lia.
Qed.

Lemma ilog2_compat (a b : Q) : 0 < a -> a == b -> ilog2 a = ilog2 b.
Proof.
  intros Ha E. destruct (ilog2_spec a Ha) as [Hl Hh].
  symmetry. apply ilog2_unique; rewrite <- E; assumption.
Qed.


Lemma roundEven_le_Z (x : Q) (z : Z) : x <= inject_Z z -> (roundEven x <= z)%Z.
Proof. intros H. rewrite <- (roundEven_Z z). apply roundEven_mono, H. Qed.

Lemma roundEven_ge_Z (x : Q) (z : Z) : inject_Z z <= x -> (z <= roundEven x)%Z.
Proof. intros H. rewrite <- (roundEven_Z z) at 1. apply roundEven_mono, H. Qed.

Lemma nearest64_compat (a b : Q) : 0 < a -> a == b -> nearest64 a = nearest64 b.
Proof.
  intros Ha E. unfold nearest64. rewrite (ilog2_compat a b Ha E).
  rewrite (roundEven_compat (a / 2 ^ Z.max (-1074) (ilog2 b - 52))
             (b / 2 ^ Z.max (-1074) (ilog2 b - 52))) by (rewrite E; reflexivity).
  reflexivity.
Qed.

(** The mantissa of the nearest double has at most 53 bits. *)
Lemma nearest64_mantissa (a : Q) :
  0 < a ->
  (0 <= roundEven (a / 2 ^ Z.max (-1074) (ilog2 a - 52)) <= 2 ^ 53)%Z.
Proof.
  intros Ha. set (e := Z.max (-1074) (ilog2 a - 52)).
  pose proof (pow2_pos e) as He.
  split.
  - apply roundEven_nonneg. apply Qle_shift_div_l; [exact He | lra].
  - apply roundEven_le_Z. apply Qle_shift_div_r; [exact He |].
    rewrite pow2_inject by lia. rewrite <- pow2_plus.
    destruct (ilog2_spec a Ha) as [_ Hh].
    apply Qlt_le_weak. apply Qlt_le_trans with (2 ^ (ilog2 a + 1)); [exact Hh |].
    apply pow2_le. lia.
Qed.

Lemma nearest64_nonneg (a : Q) : 0 < a -> 0 <= nearest64 a.
Proof.
  intros Ha. unfold nearest64.
  apply Qmult_le_0_compat.
  - change 0 with (inject_Z 0). rewrite <- Zle_Qle. apply nearest64_mantissa, Ha.
  - apply Qlt_le_weak, pow2_pos.
Qed.

(** A number [m * 2^e] with at most 53 bits of mantissa and an exponent
    of at least -1074 is a double: rounding leaves it alone. *)
Lemma nearest64_representable (m e : Z) :
  (0 < m <= 2 ^ 53)%Z -> (-1074 <= e)%Z ->
  nearest64 (inject_Z m * 2 ^ e) == inject_Z m * 2 ^ e.
Proof.
  intros Hm He.
  destruct (log2_bounds m ltac:(lia)) as [Hlo Hhi].
  pose proof (Z.log2_nonneg m) as H0.
  assert (H53 : (Z.log2 m <= 53)%Z).
  { rewrite <- (Z.log2_pow2 53) by lia. apply Z.log2_le_mono. lia. }
  pose proof (pow2_pos e) as Hpe.
  assert (Hl : ilog2 (inject_Z m * 2 ^ e) = (Z.log2 m + e)%Z).
  { apply ilog2_unique.
    - rewrite pow2_plus. apply Qmult_le_compat_r; [exact Hlo | lra].
    - replace (Z.log2 m + e + 1)%Z with (Z.log2 m + 1 + e)%Z by lia.
      rewrite pow2_plus, pow2_succ. apply Qmult_lt_compat_r; assumption. }
  unfold nearest64. rewrite Hl.
  set (e' := Z.max (-1074) (Z.log2 m + e - 52)).
  pose proof (pow2_pos e') as Hpe'.
  destruct (Z.eq_dec (Z.log2 m) 53) as [E53 | N53].
  - assert (Em : m = (2 ^ 53)%Z).
    { destruct (Z.log2_spec m ltac:(lia)) as [Hs _]. rewrite E53 in Hs. lia. }
    assert (Ee' : e' = (e + 1)%Z) by (unfold e'; lia).
    rewrite Ee', Em.
    rewrite (roundEven_compat _ (inject_Z (2 ^ 52))).
    + rewrite roundEven_Z, pow2_succ.
      change (inject_Z (2 ^ 53)) with (2 * inject_Z (2 ^ 52)). ring.
    + rewrite pow2_succ.
      change (inject_Z (2 ^ 53)) with (2 * inject_Z (2 ^ 52)). field. lra.
  - assert (Hd : (0 <= e - e')%Z) by (unfold e'; lia).
    assert (Ee : 2 ^ e == inject_Z (2 ^ (e - e')) * 2 ^ e').
    { rewrite pow2_inject by exact Hd. rewrite <- pow2_plus.
      replace (e - e' + e')%Z with e by lia. reflexivity. }
    rewrite (roundEven_compat _ (inject_Z (m * 2 ^ (e - e')))).
    + rewrite roundEven_Z, inject_Z_mult. rewrite Ee. ring.
    + rewrite inject_Z_mult. rewrite Ee. field. lra.
Qed.

Lemma nearest64_mono (a b : Q) : 0 < a -> a <= b -> nearest64 a <= nearest64 b.
Proof.
  intros Ha Hab.
  assert (Hb : 0 < b) by (apply Qlt_le_trans with a; assumption).
  pose proof (ilog2_mono a b Ha Hab) as Hl.
  unfold nearest64.
  set (ea := Z.max (-1074) (ilog2 a - 52)). set (eb := Z.max (-1074) (ilog2 b - 52)).
  pose proof (pow2_pos ea) as Hpa. pose proof (pow2_pos eb) as Hpb.
  destruct (Z.eq_dec ea eb) as [E | N].
  - rewrite <- E. apply Qmult_le_compat_r; [| lra].
    rewrite <- Zle_Qle. apply roundEven_mono.
    apply Qmult_le_compat_r; [exact Hab |].
    apply Qlt_le_weak, Qinv_lt_0_compat, Hpa.
  - assert (Hlt : (ea < eb)%Z) by (unfold ea, eb in *; lia).
    assert (Heb : eb = (ilog2 b - 52)%Z) by (unfold ea, eb in *; lia).
    assert (Hd : (0 <= ilog2 b - ea)%Z) by lia.
    assert (Hla : (ilog2 a + 1 <= ilog2 b)%Z) by (unfold ea, eb in *; lia).
    destruct (ilog2_spec a Ha) as [_ Hah]. destruct (ilog2_spec b Hb) as [Hbl _].
    apply Qle_trans with (2 ^ ilog2 b).
    + setoid_replace (2 ^ ilog2 b) with (inject_Z (2 ^ (ilog2 b - ea)) * 2 ^ ea).
      * apply Qmult_le_compat_r; [| lra].
        rewrite <- Zle_Qle. apply roundEven_le_Z.
        apply Qle_shift_div_r; [exact Hpa |].
        rewrite pow2_inject by exact Hd. rewrite <- pow2_plus.
        replace (ilog2 b - ea + ea)%Z with (ilog2 b) by lia.
        apply Qlt_le_weak. apply Qlt_le_trans with (2 ^ (ilog2 a + 1)); [exact Hah |].
        apply pow2_le, Hla.
      * rewrite pow2_inject by exact Hd. rewrite <- pow2_plus.
        replace (ilog2 b - ea + ea)%Z with (ilog2 b) by lia. reflexivity.
    + setoid_replace (2 ^ ilog2 b) with (inject_Z (2 ^ 52) * 2 ^ eb).
      * apply Qmult_le_compat_r; [| lra].
        rewrite <- Zle_Qle. apply roundEven_ge_Z.
        apply Qle_shift_div_l; [exact Hpb |].
        rewrite pow2_inject by lia. rewrite <- pow2_plus.
        replace (52 + eb)%Z with (ilog2 b) by lia. exact Hbl.
      * rewrite pow2_inject by lia. rewrite <- pow2_plus.
        replace (52 + eb)%Z with (ilog2 b) by lia. reflexivity.
Qed.

Lemma fl64_pos (q : Q) : 0 < q -> fl64 q = Qred (nearest64 q).
Proof.
  intros H. unfold fl64. rewrite (proj1 (Qgt_alt q 0) H). reflexivity.
Qed.

Lemma fl64_neg (q : Q) : q < 0 -> fl64 q = Qred (- nearest64 (- q)).
Proof.
  intros H. unfold fl64. rewrite (proj1 (Qlt_alt q 0) H). reflexivity.
Qed.

Lemma fl64_zero (q : Q) : q == 0 -> fl64 q = 0.
Proof.
  intros H. unfold fl64. rewrite (proj1 (Qeq_alt q 0) H). reflexivity.
Qed.

Lemma fl64_compat (q q' : Q) : q == q' -> fl64 q = fl64 q'.
Proof.
  intros E. unfold fl64. rewrite <- E.
  destruct (q ?= 0) eqn:C; compare_facts.
  - reflexivity.
  - rewrite (nearest64_compat (- q) (- q')); [reflexivity | lra | rewrite E; reflexivity].
  - rewrite (nearest64_compat q q'); [reflexivity | lra | exact E].
Qed.

Lemma fl64_nonneg (q : Q) : 0 <= q -> 0 <= fl64 q.
Proof.
  intros H. destruct (Qlt_le_dec 0 q) as [Hp | Hn].
  - rewrite fl64_pos by exact Hp. rewrite Qred_correct. apply nearest64_nonneg, Hp.
  - rewrite fl64_zero by lra. apply Qle_refl.
Qed.

Lemma fl64_nonpos (q : Q) : q <= 0 -> fl64 q <= 0.
Proof.
  intros H. destruct (Qlt_le_dec q 0) as [Hp | Hn].
  - rewrite fl64_neg by exact Hp. rewrite Qred_correct.
    pose proof (nearest64_nonneg (- q) ltac:(lra)). lra.
  - rewrite fl64_zero by lra. apply Qle_refl.
Qed.

(** Rounding is monotone. *)
Lemma fl64_mono (x y : Q) : x <= y -> fl64 x <= fl64 y.
Proof.
  intros H.
  destruct (Qlt_le_dec 0 x) as [Hx | Hx].
  - rewrite (fl64_pos x Hx), (fl64_pos y) by lra. rewrite !Qred_correct.
    apply nearest64_mono; assumption.
  - destruct (Qlt_le_dec y 0) as [Hy | Hy].
    + rewrite (fl64_neg y Hy), (fl64_neg x) by lra. rewrite !Qred_correct.
      pose proof (nearest64_mono (- y) (- x) ltac:(lra) ltac:(lra)). lra.
    + apply Qle_trans with 0; [apply fl64_nonpos, Hx | apply fl64_nonneg, Hy].
Qed.

(** Rounding a double gives the same double. *)
Lemma fl64_idempotent (q : Q) : fl64 (fl64 q) = fl64 q.
Proof.
  assert (Hrep : forall a, 0 < a ->
            nearest64 a == 0 \/ (0 < nearest64 a /\ nearest64 (nearest64 a) == nearest64 a)).
  { intros a Ha. pose proof (nearest64_mantissa a Ha) as Hm.
    unfold nearest64 at 1 2 4.
    set (e := Z.max (-1074) (ilog2 a - 52)) in *.
    set (m := roundEven (a / 2 ^ e)) in *.
    destruct (Z.eq_dec m 0) as [E0 | N0].
    - left. rewrite E0. change (inject_Z 0) with 0. ring.
    - right. split.
      + apply Qmult_lt_0_compat; [| apply pow2_pos].
        change 0 with (inject_Z 0). rewrite <- Zlt_Qlt. lia.
      + unfold nearest64 at 2. fold e. fold m.
        apply nearest64_representable; unfold e; lia. }
  destruct (Qcompare_spec q 0) as [E | L | G].
  - rewrite (fl64_zero q E). reflexivity.
  - rewrite (fl64_neg q L).
    destruct (Hrep (- q) ltac:(lra)) as [Z0 | [P R]].
    + rewrite (Qred_complete (- nearest64 (- q)) 0) by (rewrite Z0; reflexivity).
      reflexivity.
    + rewrite fl64_neg by (rewrite Qred_correct; lra).
      apply Qred_complete.
      rewrite (nearest64_compat (- Qred (- nearest64 (- q))) (nearest64 (- q))).
      * rewrite R. reflexivity.
      * rewrite Qred_correct. lra.
      * rewrite Qred_correct. ring.
  - rewrite (fl64_pos q G).
    destruct (Hrep q G) as [Z0 | [P R]].
    + rewrite (Qred_complete (nearest64 q) 0) by exact Z0. reflexivity.
    + rewrite fl64_pos by (rewrite Qred_correct; exact P).
      apply Qred_complete.
      rewrite (nearest64_compat (Qred (nearest64 q)) (nearest64 q)).
      * exact R.
      * rewrite Qred_correct. exact P.
      * apply Qred_correct.
Qed.

Lemma fl64_opp (q : Q) : fl64 (- q) == - fl64 q.
Proof.
  destruct (Qcompare_spec q 0) as [E | L | G].
  - rewrite (fl64_zero q E), fl64_zero by (rewrite E; reflexivity). reflexivity.
  - rewrite (fl64_neg q L), fl64_pos by lra. rewrite !Qred_correct. ring.
  - rewrite (fl64_pos q G), fl64_neg by lra. rewrite !Qred_correct.
    rewrite (nearest64_compat (- - q) q); [reflexivity | lra | ring].
Qed.

Lemma roundEven_error (x : Q) : Qabs (inject_Z (roundEven x) - x) <= 1 # 2.
Proof.
  pose proof (Qfloor_le x) as Hlo. pose proof (Qlt_floor x) as Hhi.
  rewrite inject_Z_plus in Hhi. change (inject_Z 1) with 1 in Hhi.
  apply Qabs_Qle_condition.
  destruct (roundEven_cases x) as [[-> H] | [-> H]].
  - split; lra.
  - rewrite inject_Z_plus. change (inject_Z 1) with 1. split; lra.
Qed.

(** The nearest double is within half a unit of the last place. *)
Lemma nearest64_error (a : Q) :
  0 < a ->
  Qabs (nearest64 a - a) <= (1 # 2) * 2 ^ Z.max (-1074) (ilog2 a - 52).
Proof.
  intros Ha. unfold nearest64.
  set (e := Z.max (-1074) (ilog2 a - 52)).
  pose proof (pow2_pos e) as He.
  setoid_replace (inject_Z (roundEven (a / 2 ^ e)) * 2 ^ e - a)
    with ((inject_Z (roundEven (a / 2 ^ e)) - a / 2 ^ e) * 2 ^ e)
    by (field; lra).
  rewrite Qabs_Qmult, (Qabs_pos (2 ^ e)) by lra.
  apply Qmult_le_compat_r; [apply roundEven_error | lra].
Qed.

(** A whole multiple [m * 2^e] with at most 53 bits of mantissa is a
    double; so is a whole number up to [2^53]. *)
Lemma fl64_representable (m e : Z) :
  (0 <= m <= 2 ^ 53)%Z -> (-1074 <= e)%Z ->
  fl64 (inject_Z m * 2 ^ e) == inject_Z m * 2 ^ e.
Proof.
  intros Hm He. destruct (Z.eq_dec m 0) as [-> | N].
  - rewrite fl64_zero by (change (inject_Z 0) with 0; ring).
    change (inject_Z 0) with 0. ring.
  - rewrite fl64_pos.
    + rewrite Qred_correct. apply nearest64_representable; lia.
    + apply Qmult_lt_0_compat; [| apply pow2_pos].
      change 0 with (inject_Z 0). rewrite <- Zlt_Qlt. lia.
Qed.

Lemma fl64_Z (z : Z) : (0 <= z <= 2 ^ 53)%Z -> fl64 (inject_Z z) == inject_Z z.
Proof.
  intros H.
  rewrite (fl64_compat (inject_Z z) (inject_Z z * 2 ^ 0))
    by (change (2 ^ 0) with 1; ring).
  rewrite fl64_representable by lia. change (2 ^ 0) with 1. ring.
Qed.

Lemma fl64_le_Z (x : Q) (z : Z) :
  (0 <= z <= 2 ^ 53)%Z -> x <= inject_Z z -> fl64 x <= inject_Z z.
Proof. intros Hz H. rewrite <- (fl64_Z z Hz). apply fl64_mono, H. Qed.

Lemma fl64_ge_Z (x : Q) (z : Z) :
  (0 <= z <= 2 ^ 53)%Z -> inject_Z z <= x -> inject_Z z <= fl64 x.
Proof. intros Hz H. rewrite <- (fl64_Z z Hz). apply fl64_mono, H. Qed.

(** The double written [0.1]: [0x1.999999999999ap-4]. *)
Example fl64_tenth : fl64 (1 # 10) = 3602879701896397 # 36028797018963968.
Proof. reflexivity. Qed.

(* ================================================================== *)
(** ** Windowed aggregator *)

Lemma slice_last {A : Type} (data : list A) (count : nat) :
  (1 <= count)%nat ->
  slice data (- Z.of_nat count)%Z None = lastN count data.
Proof.
  intros Hc. unfold slice, relIndex, lastN.
  destruct (Z.ltb_spec (- Z.of_nat count) 0) as [_ | H]; [| lia].
  replace (Z.to_nat (Z.max (Z.of_nat (List.length data) + - Z.of_nat count) 0))
    with (List.length data - count)%nat by lia.
  apply firstn_all2. rewrite length_skipn. lia.
Qed.

Lemma slice_last_0 {A : Type} (data : list A) :
  slice data (- Z.of_nat 0)%Z None = data.
Proof.
  unfold slice, relIndex. simpl.
  rewrite Z.min_l by lia. simpl.
  apply firstn_all2. lia.
Qed.

Lemma slice_init {A : Type} (data : list A) (n : nat) :
  (1 <= n)%nat ->
  slice data 0%Z (Some (- Z.of_nat n)%Z) = firstn (List.length data - n) data.
Proof.
  intros Hn. unfold slice, relIndex.
  destruct (Z.ltb_spec (- Z.of_nat n) 0) as [_ | H]; [| lia].
  change (0 <? 0)%Z with false. cbv iota.
  rewrite Z.min_l by lia. simpl (skipn _ _).
  f_equal. lia.
Qed.

Lemma lastN_nonempty {A : Type} (data : list A) (count : nat) :
  (1 <= count)%nat -> data <> [] -> lastN count data <> [].
Proof.
  intros Hc Hd Hnil. unfold lastN in Hnil.
  apply (f_equal (@List.length A)) in Hnil. rewrite length_skipn in Hnil.
  destruct data as [| a d]; [congruence |].
  cbn [Datatypes.length] in Hnil. lia.
Qed.

Lemma lastN_min {A : Type} (data : list A) (count : nat) :
  lastN (Nat.min count (List.length data)) data = lastN count data.
Proof.
  unfold lastN. f_equal. lia.
Qed.

Lemma fold_left_map64 {A : Type} (g : A -> Q) (l : list A) (a : Q) :
  fold_left (fun acc curr => fl64 (acc + g curr)) l a
  = fold_left (fun acc x => fl64 (acc + x)) (map g l) a.
Proof.
  revert a. induction l as [| x l IH]; intros a; simpl; [reflexivity | apply IH].
Qed.

Lemma fold64_map_ext {A : Type} (g h : A -> Q) (l : list A) (a : Q) :
  (forall x, g x == h x) ->
  fold_left (fun acc x => fl64 (acc + x)) (map g l) a
  = fold_left (fun acc x => fl64 (acc + x)) (map h l) a.
Proof.
  intros H. revert a. induction l as [| x l IH]; intros a; simpl; [reflexivity |].
  rewrite (fl64_compat (a + g x) (a + h x)) by (rewrite H; reflexivity).
  apply IH.
Qed.

Lemma mean64_nonempty (l : list Q) :
  l <> [] -> mean64 l = fl64 (sum64 l / inject_Z (Z.of_nat (List.length l))).
Proof.
  destruct l; [congruence | reflexivity].
Qed.

Lemma mean64_map_ext {A : Type} (g h : A -> Q) (l : list A) :
  (forall x, g x == h x) -> mean64 (map g l) = mean64 (map h l).
Proof.
  intros H. destruct l as [| x l]; [reflexivity |].
  rewrite !mean64_nonempty by discriminate.
  unfold sum64. rewrite (fold64_map_ext g h (x :: l) 0 H), !length_map.
  reflexivity.
Qed.

(** [getAverage] is the double-arithmetic mean of the readings of the
    window, a falsy reading taken as 0. *)
Lemma getAverage_unfold {A : Type} (data : list A) (key : A -> value) (count : nat) :
  (1 <= count)%nat ->
  getAverage data key count
  = mean64 (map (fun a => orNum (key a) 0) (lastN count data)).
Proof.
  intros Hc. destruct data as [| a data]; [reflexivity |].
  unfold getAverage.
  simpl (List.length (a :: data) =? 0)%nat. cbv iota.
  rewrite slice_last by assumption.
  pose proof (lastN_nonempty (a :: data) count Hc ltac:(discriminate)) as Hne.
  rewrite mean64_nonempty by (destruct (lastN count (a :: data)); [congruence | discriminate]).
  unfold sum64. rewrite fold_left_map64, length_map. reflexivity.
Qed.

Lemma getAverage_nil {A : Type} (key : A -> value) (count : nat) :
  getAverage [] key count = 0%Q.
Proof. reflexivity. Qed.

Lemma orNum_VNum (q d : Q) : q == 0 \/ orNum (VNum q) d = q.
Proof.
  simpl. destruct (Qeq_bool q 0) eqn:E; [left; apply Qeq_bool_eq; exact E | right; reflexivity].
Qed.

Lemma orNum_VNum_0 (q : Q) : orNum (VNum q) 0 == q.
Proof.
  destruct (orNum_VNum q 0) as [H | H]; [| rewrite H; reflexivity].
  simpl. destruct (Qeq_bool q 0); [symmetry; exact H | reflexivity].
Qed.

Lemma getAverage_mean {A : Type} (data : list A) (f : A -> Q) (count : nat) :
  (1 <= count)%nat ->
  getAverage data (fun a => VNum (f a)) count
  = mean64 (map f (lastN (Nat.min count (List.length data)) data)).
Proof.
  intros Hc. rewrite getAverage_unfold by assumption.
  rewrite lastN_min.
  apply (mean64_map_ext (fun a => orNum (VNum (f a)) 0) f).
  intros a. apply orNum_VNum_0.
Qed.





(** Adding the 0 of a falsy reading to a double leaves it as it is, so
    the rounded sum of a window is the rounded sum of its truthy
    readings. *)
Lemma fold64_falsy_as_zero {A : Type} (key : A -> value) (w : list A) (a : Q) :
  fl64 a = a ->
  fold_left (fun acc x => fl64 (acc + x)) (map (fun c => orNum (key c) 0) w) a
  = fold_left (fun acc x => fl64 (acc + x))
      (map numOf (filter truthy (map key w))) a.
Proof.
  revert a. induction w as [| c w IH]; intros a Ha; [reflexivity |].
  assert (Hskip : fl64 (a + 0) = a).
  { rewrite (fl64_compat (a + 0) a) by ring. exact Ha. }
  cbn [map filter fold_left].
  destruct (key c) as [q | | |]; cbn [orNum truthy numOf];
    try (rewrite Hskip; apply IH; exact Ha).
  destruct (Qeq_bool q 0); cbn [negb map fold_left numOf].
  - rewrite Hskip. apply IH. exact Ha.
  - apply IH. apply fl64_idempotent.
Qed.

Lemma sum64_falsy_as_zero {A : Type} (key : A -> value) (w : list A) :
  sum64 (map (fun c => orNum (key c) 0) w)
  = sum64 (map numOf (filter truthy (map key w))).
Proof.
  apply fold64_falsy_as_zero. reflexivity.
Qed.

Lemma inject_nat_pos (n : nat) : (1 <= n)%nat -> 0 < inject_Z (Z.of_nat n).
Proof.
  intros H. change 0 with (inject_Z 0). rewrite <- Zlt_Qlt. lia.
Qed.

Lemma length_filter_le {A : Type} (p : A -> bool) (l : list A) :
  (List.length (filter p l) <= List.length l)%nat.
Proof.
  induction l as [| x l IH]; simpl; [lia |].
  destruct (p x); simpl; lia.
Qed.

Lemma Qabs_div_widen (s : Q) (k n : nat) :
  (1 <= k)%nat -> (k <= n)%nat ->
  Qabs (s / inject_Z (Z.of_nat n)) <= Qabs (s / inject_Z (Z.of_nat k)).
Proof.
  intros Hk Hkn.
  pose proof (inject_nat_pos k Hk) as Pk.
  pose proof (inject_nat_pos n ltac:(lia)) as Pn.
  unfold Qdiv. rewrite !Qabs_Qmult.
  apply Qmult_le_compat_nonneg.
  - split; [apply Qabs_nonneg | apply Qle_refl].
  - split; [apply Qabs_nonneg |].
    rewrite !Qabs_pos by (apply Qlt_le_weak, Qinv_lt_0_compat; assumption).
    apply Qle_shift_inv_l; [assumption |].
    rewrite Qmult_comm. apply Qle_shift_div_r; [assumption |].
    rewrite Qmult_1_l. rewrite <- Zle_Qle. lia.
Qed.

(** Rounding commutes with the absolute value, so it keeps the order
    of the distances from 0. *)
Lemma fl64_abs (x : Q) : Qabs (fl64 x) == fl64 (Qabs x).
Proof.
  destruct (Qlt_le_dec x 0) as [Hn | Hp].
  - rewrite (fl64_compat (Qabs x) (- x)) by (apply Qabs_neg; lra).
    rewrite fl64_opp. apply Qabs_neg. apply fl64_nonpos. lra.
  - rewrite (fl64_compat (Qabs x) x) by (apply Qabs_pos; exact Hp).
    apply Qabs_pos. apply fl64_nonneg. exact Hp.
Qed.

Lemma fl64_abs_mono (x y : Q) :
  Qabs x <= Qabs y -> Qabs (fl64 x) <= Qabs (fl64 y).
Proof.
  intros H. rewrite !fl64_abs. apply fl64_mono. exact H.
Qed.

(** C10.  In [getAverage(data, key, count)] a selected sample whose key
    field is absent, null or otherwise falsy adds 0 to the sum and still
    counts in the divisor: the result is the sum of the truthy readings
    of the window over the length of the whole window (sum and quotient
    as double arithmetic gives them).  It is therefore no further from 0
    than the mean of the truthy readings alone, and it is 0 when the
    window has no truthy reading. *)
Theorem getAverage_falsy_counts_as_zero {A : Type}
    (data : list A) (key : A -> value) (count : nat) :
  (1 <= count)%nat -> data <> [] ->
  let window := map key (lastN count data) in
  let kept := filter truthy window in
  getAverage data key count
    == fl64 (sum64 (map numOf kept) / inject_Z (Z.of_nat (List.length window)))
  /\ (kept <> [] ->
      Qabs (getAverage data key count) <= Qabs (mean64 (map numOf kept)))
  /\ (kept = [] -> getAverage data key count == 0).
Proof.
  intros Hc Hd window kept.
  assert (E : getAverage data key count
              = fl64 (sum64 (map numOf kept)
                      / inject_Z (Z.of_nat (List.length window)))).
  { rewrite getAverage_unfold by assumption.
    pose proof (lastN_nonempty data count Hc Hd) as Hne.
    rewrite mean64_nonempty
      by (destruct (lastN count data); [congruence | discriminate]).
    rewrite sum64_falsy_as_zero. unfold window. rewrite !length_map. reflexivity. }
  split; [rewrite E; reflexivity | split].
  - intros Hk. rewrite E.
    rewrite mean64_nonempty by (destruct kept; [congruence | discriminate]).
    rewrite length_map. apply fl64_abs_mono.
    apply Qabs_div_widen.
    + destruct kept; [congruence | simpl; lia].
    + apply length_filter_le.
  - intros Hk. rewrite E, Hk. apply Qeq_refl.
Qed.

Lemma getAverage_falsy_counts_as_zero_witness :
  getAverage [VNum 600; VUndefined; VNull; VNum 300] reading 4 == 900 / 4
  /\ Qabs (getAverage [VNum 600; VUndefined; VNull; VNum 300] reading 4)
     <= Qabs (mean64 [600; 300]).
Proof.
  pose proof (getAverage_falsy_counts_as_zero
                [VNum 600; VUndefined; VNull; VNum 300] reading 4
                ltac:(lia) ltac:(discriminate)) as (H1 & H2 & _).
  split.
  - rewrite H1. vm_compute. reflexivity.
  - apply H2. vm_compute. discriminate.
Defined.

(* ================================================================== *)
(** ** Comparisons *)

Lemma geb_true (a b : Q) : geb a b = true <-> b <= a.
Proof. unfold geb. apply Qle_bool_iff. Qed.

Lemma geb_false (a b : Q) : geb a b = false <-> a < b.
Proof.
  unfold geb. split; intros H.
  - apply Qnot_le_lt. intros L. apply Qle_bool_iff in L. congruence.
  - destruct (Qle_bool b a) eqn:E; [| reflexivity].
    apply Qle_bool_iff in E. exfalso. apply (Qlt_not_le _ _ H E).
Qed.

Lemma gtb_true (a b : Q) : gtb a b = true <-> b < a.
Proof.
  unfold gtb. rewrite negb_true_iff. apply (geb_false b a).
Qed.

Lemma gtb_false (a b : Q) : gtb a b = false <-> a <= b.
Proof.
  unfold gtb. rewrite negb_false_iff. apply (geb_true b a).
Qed.

Lemma ltb_true (a b : Q) : ltb a b = true <-> a < b.
Proof.
  unfold ltb. rewrite negb_true_iff. apply (geb_false a b).
Qed.

Lemma ltb_false (a b : Q) : ltb a b = false <-> b <= a.
Proof.
  unfold ltb. rewrite negb_false_iff. apply (geb_true a b).
Qed.

(** Turns the boolean tests of the hypotheses and of the goal into
    order facts on [Q]. *)
Ltac order_facts :=
  repeat match goal with
  | H : geb _ _ = true |- _ => apply geb_true in H
  | H : geb _ _ = false |- _ => apply geb_false in H
  | H : gtb _ _ = true |- _ => apply gtb_true in H
  | H : gtb _ _ = false |- _ => apply gtb_false in H
  | H : ltb _ _ = true |- _ => apply ltb_true in H
  | H : ltb _ _ = false |- _ => apply ltb_false in H
  end.

(** Decides a goal from the outcomes of the tests met so far. *)
Ltac by_order := order_facts; solve [lra | exfalso; lra].

(* ================================================================== *)
(** ** Kp trend *)

Lemma trendDesc_same (x : Q) : trendDesc x x = "ситуация стабильна."%string.
Proof.
  unfold trendDesc.
  assert (E : x - x == 0) by ring.
  replace (gtb (x - x) 0) with false.
  2:{ symmetry. apply gtb_false. rewrite E. apply Qle_refl. }
  replace (ltb (x - x) 0) with false.
  2:{ symmetry. apply ltb_false. rewrite E. apply Qle_refl. }
  reflexivity.
Qed.

Lemma prevKpOf_cases (kp : list KpDataPoint.t) :
  match at_ kp (Z.of_nat (List.length kp) - 2)%Z with
  | None => prevKpOf kp = lastKpOf kp
  | Some s =>
      (KpDataPoint.kp s == 0 -> prevKpOf kp = lastKpOf kp)
      /\ (~ KpDataPoint.kp s == 0 -> prevKpOf kp = KpDataPoint.kp s)
  end.
Proof.
  unfold prevKpOf.
  destruct (at_ kp (Z.of_nat (List.length kp) - 2)%Z) as [s |]; simpl;
    [| reflexivity].
  destruct (Qeq_bool (KpDataPoint.kp s) 0) eqn:E; split; intros H;
    try reflexivity.
  - apply Qeq_bool_eq in E. contradiction.
  - apply Qeq_bool_neq in E. contradiction.
Qed.

(** C9.  The previous Kp is the kp of the second-to-last sample when
    that sample exists and its kp is not 0, and the current Kp when the
    sample is absent or its kp equals 0.  Hence a series whose
    second-to-last kp is 0 gets the STABLE trend phrase whatever its
    last kp is, and its status section is the one of a series without
    history. *)
Theorem kp_trend_previous_fallback (kp : list KpDataPoint.t) (w : World) :
  (forall s, at_ kp (Z.of_nat (List.length kp) - 2)%Z = Some s ->
             ~ KpDataPoint.kp s == 0 -> prevKpOf kp = KpDataPoint.kp s)
  /\ (at_ kp (Z.of_nat (List.length kp) - 2)%Z = None ->
      prevKpOf kp = lastKpOf kp)
  /\ (forall s, at_ kp (Z.of_nat (List.length kp) - 2)%Z = Some s ->
                KpDataPoint.kp s == 0 ->
                prevKpOf kp = lastKpOf kp
                /\ trendDesc (lastKpOf kp) (prevKpOf kp)
                   = "ситуация стабильна."%string
                /\ statusSection (lastKpOf kp) (prevKpOf kp) w
                   = statusSection (lastKpOf kp) (lastKpOf kp) w).
Proof.
  pose proof (prevKpOf_cases kp) as H.
  split; [| split].
  - intros s Hs Hnz. rewrite Hs in H. apply H. exact Hnz.
  - intros Hn. rewrite Hn in H. exact H.
  - intros s Hs Hz. rewrite Hs in H. destruct H as [H _].
    specialize (H Hz). rewrite H. split; [reflexivity |].
    split; [apply trendDesc_same | reflexivity].
Qed.

Lemma kp_trend_previous_fallback_witness :
  lastKpOf [KpDataPoint.mk "09:00" 0; KpDataPoint.mk "12:00" 5] = 5
  /\ trendDesc (lastKpOf [KpDataPoint.mk "09:00" 0; KpDataPoint.mk "12:00" 5])
               (prevKpOf [KpDataPoint.mk "09:00" 0; KpDataPoint.mk "12:00" 5])
     = "ситуация стабильна."%string.
Proof.
  split; [reflexivity |].
  pose proof (kp_trend_previous_fallback
                [KpDataPoint.mk "09:00" 0; KpDataPoint.mk "12:00" 5] world0)
    as (_ & _ & H).
  destruct (H (KpDataPoint.mk "09:00" 0) eq_refl ltac:(reflexivity))
    as (_ & Ht & _).
  exact Ht.
Defined.

(* ================================================================== *)
(** ** Phrase selection and the sections that draw *)

Lemma pick_run (options : list string) (w : World) :
  pick options w
  = Ok (at_ options (Math_floor (random w (drawn w)
                                 * inject_Z (Z.of_nat (List.length options)))),
        advance w).
Proof. reflexivity. Qed.

Lemma floor_index_in_range (r : Q) (n : nat) :
  0 <= r -> r < 1 -> (1 <= n)%nat ->
  (0 <= Math_floor (r * inject_Z (Z.of_nat n)) < Z.of_nat n)%Z.
Proof.
  intros H0 H1 Hn. unfold Math_floor.
  pose proof (inject_nat_pos n Hn) as Pn.
  split.
  - change 0%Z with (Qfloor 0). apply Qfloor_resp_le.
    apply Qmult_le_0_compat; [assumption | apply Qlt_le_weak; assumption].
  - rewrite Zlt_Qlt.
    apply Qle_lt_trans with (r * inject_Z (Z.of_nat n)); [apply Qfloor_le |].
    rewrite <- (Qmult_1_l (inject_Z (Z.of_nat n))) at 2.
    apply Qmult_lt_compat_r; assumption.
Qed.

Lemma pick_member (options : list string) (w : World) :
  options <> [] -> fairRandom w ->
  exists s, In s options /\ pick options w = Ok (Some s, advance w).
Proof.
  intros Hne Hf. rewrite pick_run.
  destruct (Hf (drawn w)) as [H0 H1].
  assert (Hn : (1 <= List.length options)%nat)
    by (destruct options; [congruence | simpl; lia]).
  pose proof (floor_index_in_range _ _ H0 H1 Hn) as [Hl Hu].
  unfold at_.
  destruct (Z.ltb_spec (Math_floor (random w (drawn w)
              * inject_Z (Z.of_nat (List.length options)))) 0) as [L | _];
    [lia |].
  destruct (nth_error options (Z.to_nat (Math_floor (random w (drawn w)
              * inject_Z (Z.of_nat (List.length options)))))) as [s |] eqn:E.
  - exists s. split; [eapply nth_error_In; eassumption | reflexivity].
  - apply nth_error_None in E. lia.
Qed.

Lemma statusSection_total (lastKp prevKp : Q) (w : World) :
  exists s, statusSection lastKp prevKp w = Ok (s, advance w).
Proof.
  unfold statusSection.
  repeat match goal with
  | |- context [if ?b then _ else _] => destruct b
  end; unfold bind; rewrite pick_run; eexists; reflexivity.
Qed.

Lemma forecastSection_total (nextKp lastKp : Q) (w : World) :
  exists s w', forecastSection nextKp lastKp w = Ok (s, w')
               /\ next w' = next w /\ random w' = random w.
Proof.
  unfold forecastSection.
  repeat match goal with
  | |- context [if ?b then _ else _] => destruct b
  end; unfold bind, ret; try rewrite pick_run; do 2 eexists;
    (split; [reflexivity | split; reflexivity]).
Qed.

Lemma nextForecastKpOf_cases (forecast : list ForecastDataPoint.t) (lastKp : Q) :
  match forecast with
  | _ :: f1 :: _ => nextForecastKpOf forecast lastKp = Ok (ForecastDataPoint.kp f1)
  | _ => nextForecastKpOf forecast lastKp = Ok lastKp
  end.
Proof.
  unfold nextForecastKpOf.
  destruct forecast as [| f0 [| f1 rest]]; try reflexivity.
  destruct (Z.ltb_spec 1 (Z.of_nat (List.length (f0 :: f1 :: rest)))) as [_ | H];
    [reflexivity |].
  cbn [Datatypes.length] in H. lia.
Qed.

Lemma nextForecastKpOf_total (forecast : list ForecastDataPoint.t) (lastKp : Q) :
  exists n, nextForecastKpOf forecast lastKp = Ok n.
Proof.
  pose proof (nextForecastKpOf_cases forecast lastKp) as H.
  destruct forecast as [| f0 [| f1 rest]]; eexists; exact H.
Qed.

(** One run of [analyzeData]: it never raises, it stores the danger
    index and the four sections joined by blank lines, and it leaves
    the other state cells and the random source as they were. *)
Lemma analyzeData_run (render : AppState)
    (kp : list KpDataPoint.t) (wind : list WindDataPoint.t)
    (flares : list FlareDataPoint.t) (protons : list ProtonDataPoint.t)
    (forecast : list ForecastDataPoint.t) (w : World) :
  let lastKp := lastKpOf kp in
  let avgFlareClass := getFlareClass (getAverage flares fluxKey 12) in
  let avgProton := getAverage protons protonKey 6 in
  exists nextKp w1 statusText forecastText w3 w',
    nextForecastKpOf forecast lastKp = Ok nextKp
    /\ setDangerIndex (dangerLabel (dangerScore lastKp (avgWindOf wind)
                                               avgFlareClass)) w
       = Ok (tt, w1)
    /\ statusSection lastKp (prevKpOf kp) w1 = Ok (statusText, advance w1)
    /\ forecastSection nextKp lastKp (advance w1) = Ok (forecastText, w3)
    /\ analyzeData render kp wind flares protons forecast w = Ok (tt, w')
    /\ report (next w')
       = join [statusText;
               dynamicsSection (windData render) lastKp (avgWindOf wind)
                 (prevWindOf wind) avgProton;
               forecastText;
               physicsSection (protonData render) avgFlareClass avgProton]
              blankLine
    /\ dangerIndex (next w')
       = dangerLabel (dangerScore lastKp (avgWindOf wind) avgFlareClass)
    /\ random w' = random w
    /\ (kpData (next w'), windData (next w'), flareData (next w'),
        forecastData (next w'), protonData (next w'),
        detectedFlares (next w'), loading (next w'), fetchError (next w'))
       = (kpData (next w), windData (next w), flareData (next w),
          forecastData (next w), protonData (next w),
          detectedFlares (next w), loading (next w), fetchError (next w)).
Proof.
  intros lastKp avgFlareClass avgProton.
  destruct (nextForecastKpOf_total forecast lastKp) as [nextKp Hn].
  set (d := dangerLabel (dangerScore lastKp (avgWindOf wind) avgFlareClass)).
  destruct (setDangerIndex d w) as [[[] w1] | e] eqn:Hd; [| discriminate].
  destruct (statusSection_total lastKp (prevKpOf kp) w1) as [statusText Hs].
  destruct (forecastSection_total nextKp lastKp (advance w1))
    as (forecastText & w3 & Hf & Hf1 & Hf2).
  exists nextKp, w1, statusText, forecastText, w3.
  eexists.
  split; [exact Hn |]. split; [reflexivity |]. split; [exact Hs |].
  split; [exact Hf |].
  split.
  { unfold analyzeData. fold lastKp avgProton avgFlareClass d.
    unfold bind at 1. unfold lift. rewrite Hn.
    unfold bind at 1. rewrite Hd.
    unfold bind at 1. rewrite Hs.
    unfold bind at 1. rewrite Hf.
    reflexivity. }
  unfold setDangerIndex, update in Hd. inversion Hd; subst w1; clear Hd.
  simpl. rewrite Hf1, Hf2. simpl.
  repeat split; reflexivity.
Qed.

(* ================================================================== *)
(** ** Forecast comparator *)

Lemma forecastSection_outlook (nextKp lastKp : Q) (w : World) :
  fairRandom w ->
  exists text w',
    forecastSection nextKp lastKp w = Ok (text, w')
    /\ (lastKp < nextKp -> In text riseSentences)
    /\ (nextKp < lastKp -> 4 <= lastKp -> In text declineSentences)
    /\ (nextKp <= lastKp -> lastKp <= nextKp \/ lastKp < 4 ->
        text = noChangeSentence).
Proof.
  intros Hf. unfold forecastSection.
  destruct (gtb nextKp lastKp) eqn:G.
  - destruct (pick_member
                ["усиление геомагнитной активности"; "рост Kp-индекса"]%string
                w ltac:(discriminate) Hf) as (s & Hin & Hp).
    unfold bind. rewrite Hp. do 2 eexists. split; [reflexivity |].
    split; [| split].
    + intros _. unfold riseSentences. simpl tpl.
      apply (in_map (fun p => ("ПРОГНОЗ: Модель NOAA прогнозирует " ++ p
                               ++ " в ближайшие 3-6 часов.")%string)).
      exact Hin.
    + intros. by_order.
    + intros. by_order.
  - destruct (ltb nextKp lastKp) eqn:L; [destruct (geb lastKp 4) eqn:E |];
      cbn [andb].
    + destruct (pick_member
                  ["стабилизация обстановки"; "постепенное снижение активности";
                   "затухание возмущений"]%string
                  w ltac:(discriminate) Hf) as (s & Hin & Hp).
      unfold bind. rewrite Hp. do 2 eexists. split; [reflexivity |].
      split; [| split].
      * intros. by_order.
      * intros _ _. unfold declineSentences. simpl tpl.
        apply (in_map (fun p => ("ПРОГНОЗ: Ожидается " ++ p
                                 ++ " в ближайшие часы.")%string)).
        exact Hin.
      * intros H1 [H2 | H2]; by_order.
    + do 2 eexists. split; [reflexivity |].
      split; [| split]; intros; try reflexivity; by_order.
    + do 2 eexists. split; [reflexivity |].
      split; [| split]; intros; try reflexivity; by_order.
Qed.

Lemma fairRandom_same (w w' : World) :
  random w' = random w -> fairRandom w -> fairRandom w'.
Proof.
  intros E H n. rewrite E. apply H.
Qed.

(** C6.  The forecast comparator takes [nextKp = forecast[1].kp] when
    the forecast has at least 2 entries and the current Kp otherwise;
    the third section of the report is then one of the "expected to
    rise" sentences when [nextKp > lastKp], one of the "expected to
    stabilize or decline" sentences when [nextKp < lastKp] and
    [lastKp >= 4], and the "no significant change" sentence in every
    other case. *)
Theorem forecast_comparator (render : AppState)
    (kp : list KpDataPoint.t) (wind : list WindDataPoint.t)
    (flares : list FlareDataPoint.t) (protons : list ProtonDataPoint.t)
    (forecast : list ForecastDataPoint.t) (w : World) :
  fairRandom w ->
  let lastKp := lastKpOf kp in
  exists nextKp statusText dynText forecastText physText w',
    analyzeData render kp wind flares protons forecast w = Ok (tt, w')
    /\ report (next w')
       = join [statusText; dynText; forecastText; physText] blankLine
    /\ (forall f1, nth_error forecast 1 = Some f1 ->
                   nextKp = ForecastDataPoint.kp f1)
    /\ ((List.length forecast <= 1)%nat -> nextKp = lastKp)
    /\ (lastKp < nextKp -> In forecastText riseSentences)
    /\ (nextKp < lastKp -> 4 <= lastKp -> In forecastText declineSentences)
    /\ (nextKp <= lastKp -> lastKp <= nextKp \/ lastKp < 4 ->
        forecastText = noChangeSentence).
Proof.
  intros Hfair lastKp.
  destruct (analyzeData_run render kp wind flares protons forecast w)
    as (nextKp & w1 & statusText & forecastText & w3 & w'
        & Hn & Hd & Hs & Hf & Hrun & Hrep & _).
  fold lastKp in Hn, Hs, Hf, Hrep.
  assert (Hfair1 : fairRandom (advance w1)).
  { unfold setDangerIndex, update in Hd. inversion Hd; subst w1.
    apply (fairRandom_same w); [reflexivity | exact Hfair]. }
  destruct (forecastSection_outlook nextKp lastKp (advance w1) Hfair1)
    as (text & w3' & Hf' & Hrise & Hdecl & Hnone).
  rewrite Hf in Hf'. inversion Hf'; subst text w3'; clear Hf'.
  exists nextKp, statusText,
    (dynamicsSection (windData render) lastKp (avgWindOf wind)
       (prevWindOf wind) (getAverage protons protonKey 6)),
    forecastText,
    (physicsSection (protonData render)
       (getFlareClass (getAverage flares fluxKey 12))
       (getAverage protons protonKey 6)),
    w'.
  split; [exact Hrun |]. split; [| split; [| split; [| split; [| split]]]].
  - exact Hrep.
  - intros f1 Hf1. pose proof (nextForecastKpOf_cases forecast lastKp) as Hc.
    destruct forecast as [| f0 [| f1' rest]]; try discriminate.
    simpl in Hf1. inversion Hf1; subst f1'. congruence.
  - intros Hlen. pose proof (nextForecastKpOf_cases forecast lastKp) as Hc.
    destruct forecast as [| f0 [| f1' rest]]; try congruence.
    cbn [Datatypes.length] in Hlen. lia.
  - exact Hrise.
  - exact Hdecl.
  - exact Hnone.
Qed.

Lemma fairRandom_world0 : fairRandom world0.
Proof.
  intros n. simpl. split; [discriminate | reflexivity].
Qed.

Lemma forecast_comparator_witness :
  exists forecastText statusText dynText physText w',
    analyzeData initialState kpQuiet [] [] [] forecastRising world0
    = Ok (tt, w')
    /\ report (next w')
       = join [statusText; dynText; forecastText; physText] blankLine
    /\ In forecastText riseSentences.
Proof.
  destruct (forecast_comparator initialState kpQuiet [] [] [] forecastRising
              world0 fairRandom_world0)
    as (nextKp & statusText & dynText & forecastText & physText & w'
        & Hrun & Hrep & Hnext & _ & Hrise & _).
  exists forecastText, statusText, dynText, physText, w'.
  split; [exact Hrun |]. split; [exact Hrep |].
  apply Hrise. rewrite (Hnext (ForecastDataPoint.mk "15:00" 5) eq_refl).
  reflexivity.
Defined.

(* ================================================================== *)
(** ** Flare peak detector *)

Section Sorting.

Context {A : Type} (t : A -> Z).





End Sorting.

Lemma at_nth_error {A : Type} (l : list A) (i : nat) :
  at_ l (Z.of_nat i) = nth_error l i.
Proof.
  unfold at_. destruct (Z.ltb_spec (Z.of_nat i) 0) as [H | _]; [lia |].
  rewrite Nat2Z.id. reflexivity.
Qed.

Lemma peakStep_at (flares : list FlareDataPoint.t) (i : nat)
    (p c n : FlareDataPoint.t) (peaks : list ExtendedFlare.t) :
  nth_error flares i = Some p ->
  nth_error flares (S i) = Some c ->
  nth_error flares (S (S i)) = Some n ->
  peakStep flares peaks (Z.of_nat (S i))
  = Ok (peaks ++ (if localMax p c n then [tagged c] else []))%list.
Proof.
  intros Hp Hc Hn. unfold peakStep.
  replace (Z.of_nat (S i) - 1)%Z with (Z.of_nat i) by lia.
  replace (Z.of_nat (S i) + 1)%Z with (Z.of_nat (S (S i))) by lia.
  rewrite !at_nth_error, Hp, Hc, Hn.
  unfold localMax, tagged.
  destruct (gtb (FlareDataPoint.flux c) (FlareDataPoint.flux p)
            && gtb (FlareDataPoint.flux c) (FlareDataPoint.flux n)
            && gtb (FlareDataPoint.flux c) threshold);
    [reflexivity | rewrite app_nil_r; reflexivity].
Qed.

(** The loop over the interior indices, started after a prefix [pre]
    already scanned. *)
Lemma detect_loop (pre suf : list FlareDataPoint.t)
    (peaks : list ExtendedFlare.t) :
  forEach (map Z.of_nat (seq (S (List.length pre)) (List.length suf - 2)))
          (peakStep (pre ++ suf)) peaks
  = Ok (peaks ++ interiorPeaks suf)%list.
Proof.
  revert pre peaks.
  induction suf as [| p suf IH]; intros pre peaks.
  - simpl. rewrite app_nil_r. reflexivity.
  - destruct suf as [| c [| n rest]].
    + simpl. rewrite app_nil_r. reflexivity.
    + simpl. rewrite app_nil_r. reflexivity.
    + replace (List.length (p :: c :: n :: rest) - 2)%nat
        with (S (List.length (c :: n :: rest) - 2))
        by (cbn [Datatypes.length]; lia).
      cbn [seq map forEach].
      rewrite (peakStep_at (pre ++ p :: c :: n :: rest) (List.length pre) p c n).
      * specialize (IH (pre ++ [p])%list
                       (peaks ++ (if localMax p c n then [tagged c] else []))%list).
        rewrite length_app in IH. cbn [Datatypes.length] in IH.
        replace (List.length pre + 1)%nat with (S (List.length pre)) in IH by lia.
        rewrite <- app_assoc in IH. cbn [app] in IH.
        cbn [Datatypes.length]. rewrite IH.
        cbn [interiorPeaks]. rewrite <- app_assoc. reflexivity.
      * rewrite nth_error_app2 by lia. rewrite Nat.sub_diag. reflexivity.
      * rewrite nth_error_app2 by lia.
        replace (S (List.length pre) - List.length pre)%nat with 1%nat by lia.
        reflexivity.
      * rewrite nth_error_app2 by lia.
        replace (S (S (List.length pre)) - List.length pre)%nat with 2%nat by lia.
        reflexivity.
Qed.

(** The loop of [loadData] never raises and finds the interior local
    maxima in series order. *)
Lemma detectPeaks_spec (flares : list FlareDataPoint.t) :
  detectPeaks flares = Ok (interiorPeaks flares).
Proof.
  unfold detectPeaks. apply (detect_loop [] flares []).
Qed.


Lemma interiorPeaks_short (l : list FlareDataPoint.t) :
  (List.length l < 3)%nat -> interiorPeaks l = [].
Proof.
  destruct l as [| p [| c [| n rest]]]; intros H; try reflexivity.
  cbn [Datatypes.length] in H. lia.
Qed.

(** One run of [loadData] (tab visible), given the run of
    [analyzeData] inside it. *)
Lemma loadData_run (getTime : string -> Z) (render : AppState)
    (result : SolarData.t) (w wA : World) :
  analyzeData render (SolarData.kp result) (SolarData.wind result)
    (SolarData.flares result) (SolarData.protons result)
    (SolarData.forecast result) (stored result w) = Ok (tt, wA) ->
  exists w',
    loadData getTime render false result w = Ok (tt, w')
    /\ detectedFlares (next w')
       = sort (byTimeDesc getTime) (interiorPeaks (SolarData.flares result))
    /\ loading (next w') = false
    /\ (kpData (next w'), windData (next w'), flareData (next w'),
        forecastData (next w'), protonData (next w'), fetchError (next w'),
        report (next w'), dangerIndex (next w'))
       = (kpData (next wA), windData (next wA), flareData (next wA),
          forecastData (next wA), protonData (next wA), fetchError (next wA),
          report (next wA), dangerIndex (next wA))
    /\ random w' = random wA /\ drawn w' = drawn wA.
Proof.
  intros HA. unfold loadData.
  change ((setLoading true ;;
           setFetchError (SolarData.isDemo result) ;;
           setKpData (SolarData.kp result) ;;
           setWindData (SolarData.wind result) ;;
           setFlareData (SolarData.flares result) ;;
           setForecastData (SolarData.forecast result) ;;
           setProtonData (SolarData.protons result) ;;
           analyzeData render (SolarData.kp result) (SolarData.wind result)
             (SolarData.flares result) (SolarData.protons result)
             (SolarData.forecast result) ;;
           peaks <- lift (detectPeaks (SolarData.flares result)) ;;
           setDetectedFlares (sort (byTimeDesc getTime) peaks) ;;
           setLoading false) w)
    with (match analyzeData render (SolarData.kp result) (SolarData.wind result)
                  (SolarData.flares result) (SolarData.protons result)
                  (SolarData.forecast result) (stored result w) with
          | Ok (_, w1) =>
              (peaks <- lift (detectPeaks (SolarData.flares result)) ;;
               setDetectedFlares (sort (byTimeDesc getTime) peaks) ;;
               setLoading false) w1
          | Throw e => Throw e
          end).
  rewrite HA. unfold bind at 1. unfold lift. rewrite detectPeaks_spec.
  eexists. split; [reflexivity |].
  simpl. repeat split; reflexivity.
Qed.



(* ================================================================== *)
(** ** Source attribution *)




(** The whole of one visible load: it never raises; what it stores is
    given by the run of [analyzeData] on the stored series. *)
Lemma loadData_total (getTime : string -> Z) (render : AppState)
    (result : SolarData.t) (w : World) :
  let lastKp := lastKpOf (SolarData.kp result) in
  let avgWind := avgWindOf (SolarData.wind result) in
  let avgProton := getAverage (SolarData.protons result) protonKey 6 in
  let avgFlareClass :=
    getFlareClass (getAverage (SolarData.flares result) fluxKey 12) in
  exists w' statusText forecastText,
    loadData getTime render false result w = Ok (tt, w')
    /\ report (next w')
       = join [statusText;
               dynamicsSection (windData render) lastKp avgWind
                 (prevWindOf (SolarData.wind result)) avgProton;
               forecastText;
               physicsSection (protonData render) avgFlareClass avgProton]
              blankLine
    /\ dangerIndex (next w')
       = dangerLabel (dangerScore lastKp avgWind avgFlareClass)
    /\ detectedFlares (next w')
       = sort (byTimeDesc getTime) (interiorPeaks (SolarData.flares result))
    /\ kpData (next w') = SolarData.kp result
    /\ windData (next w') = SolarData.wind result
    /\ flareData (next w') = SolarData.flares result
    /\ forecastData (next w') = SolarData.forecast result
    /\ protonData (next w') = SolarData.protons result
    /\ fetchError (next w') = SolarData.isDemo result
    /\ loading (next w') = false.
Proof.
  intros lastKp avgWind avgProton avgFlareClass.
  destruct (analyzeData_run render (SolarData.kp result) (SolarData.wind result)
              (SolarData.flares result) (SolarData.protons result)
              (SolarData.forecast result) (stored result w))
    as (nextKp & w1 & st & ft & w3 & wA & _ & _ & _ & _ & HA & Hrep & Hdi & _ & Hfields).
  destruct (loadData_run getTime render result w wA HA)
    as (w' & Hrun & Hdet & Hload & Hsame & _).
  injection Hsame as E1 E2 E3 E4 E5 E6 E7 E8.
  injection Hfields as F1 F2 F3 F4 F5 F6 F7 F8.
  exists w', st, ft.
  split; [exact Hrun |].
  split; [rewrite E7; exact Hrep |].
  split; [rewrite E8; exact Hdi |].
  split; [exact Hdet |].
  repeat split; congruence.
Qed.


(* ================================================================== *)
(** ** Totality and determinism of a load *)

(** C8.  On every snapshot, empty series included, a load terminates
    without raising, whether the tab is hidden or not.  Along the way
    an empty series averages to 0, a flare series shorter than 3 gives
    no detected flare, a forecast of at most one entry makes the
    comparator fall back to the current Kp, and with no flare sample the
    average class is the background class A0.0, which adds nothing to
    the score, as is the class shown for the current flare. *)
Theorem load_never_raises (getTime : string -> Z) (render : AppState)
    (document_hidden : bool) (result : SolarData.t) (w : World) :
  (exists w', loadData getTime render document_hidden result w = Ok (tt, w'))
  /\ (exists w',
        loadData getTime render false result w = Ok (tt, w')
        /\ ((List.length (SolarData.flares result) < 3)%nat ->
            detectedFlares (next w') = [])
        /\ (SolarData.flares result = [] ->
            currentFlareClass (next w') = "A0.0"%string
            /\ isFlareHigh (next w') = false))
  /\ (forall (A : Type) (key : A -> value) (count : nat),
        getAverage (@nil A) key count = 0)
  /\ ((List.length (SolarData.forecast result) <= 1)%nat ->
      nextForecastKpOf (SolarData.forecast result)
        (lastKpOf (SolarData.kp result))
      = Ok (lastKpOf (SolarData.kp result)))
  /\ (SolarData.flares result = [] ->
      getFlareClass (getAverage (SolarData.flares result) fluxKey 12)
      = "A0.0"%string
      /\ flarePart
           (getFlareClass (getAverage (SolarData.flares result) fluxKey 12))
         = 0%Z).
Proof.
  destruct (loadData_total getTime render result w)
    as (w' & st & ft & Hrun & _ & _ & Hdet & _ & _ & Hfl & _).
  split; [| split; [| split; [| split]]].
  - destruct document_hidden.
    + exists w. reflexivity.
    + exists w'. exact Hrun.
  - exists w'. split; [exact Hrun |]. split.
    + intros Hlen. rewrite Hdet, interiorPeaks_short by exact Hlen. reflexivity.
    + intros Hnil. unfold isFlareHigh, currentFlareClass.
      rewrite Hfl, Hnil. split; reflexivity.
  - reflexivity.
  - intros Hlen.
    pose proof (nextForecastKpOf_cases (SolarData.forecast result)
                  (lastKpOf (SolarData.kp result))) as Hc.
    destruct (SolarData.forecast result) as [| f0 [| f1 rest]]; try exact Hc.
    cbn [Datatypes.length] in Hlen. lia.
  - intros Hnil. rewrite Hnil. split; reflexivity.
Qed.

(** C7 fails on the code: the report is not a function of the snapshot
    alone.  [analyzeData] reads the density (and, in a proton event, the
    proton flux) from the state cells [windData] and [protonData] of the
    render that created the closure, not from its arguments [wind] and
    [protons].  The same snapshot (density 5.0) analysed with the same
    draws by the closure of the first render and by the closure of a
    render that holds an earlier cycle's wind series gives the same
    danger index and two different reports, neither showing 5.0. *)
Theorem report_depends_on_render_state :
  exists w1 w2,
    loadData (fun _ => 0%Z) initialState false quietSnapshot world0
    = Ok (tt, w1)
    /\ loadData (fun _ => 0%Z) earlierCycle false quietSnapshot world0
       = Ok (tt, w2)
    /\ dangerIndex (next w1) = dangerIndex (next w2)
    /\ includes (report (next w1)) "плотность undefined" = true
    /\ includes (report (next w2)) "плотность 9.9" = true
    /\ report (next w1) <> report (next w2).
Proof.
  do 2 eexists.
  split; [vm_compute; reflexivity |].
  split; [vm_compute; reflexivity |].
  split; [reflexivity |].
  split; [vm_compute; reflexivity |].
  split; [vm_compute; reflexivity |].
  vm_compute. discriminate.
Qed.

(* ================================================================== *)
(** ** Printing and reading decimals *)

Section Decimals.

Local Open Scope string_scope.

Lemma append_assoc (a b c : string) : (a ++ b) ++ c = a ++ (b ++ c).
Proof.
  induction a as [| x a IH]; simpl; [reflexivity | rewrite IH; reflexivity].
Qed.

Lemma append_nil_r (a : string) : a ++ "" = a.
Proof.
  induction a as [| x a IH]; simpl; [reflexivity | rewrite IH; reflexivity].
Qed.

Lemma length_append (a b : string) :
  String.length (a ++ b) = (String.length a + String.length b)%nat.
Proof.
  induction a as [| x a IH]; simpl; [reflexivity | rewrite IH; reflexivity].
Qed.

Lemma allDigits_app (a b : string) :
  allDigits (a ++ b) = allDigits a && allDigits b.
Proof.
  induction a as [| x a IH]; simpl; [reflexivity |].
  rewrite IH, andb_assoc. reflexivity.
Qed.

Lemma valueFrom_app (acc : N) (a b : string) :
  valueFrom acc (a ++ b) = valueFrom (valueFrom acc a) b.
Proof.
  revert acc. induction a as [| x a IH]; intros acc; simpl;
    [reflexivity | apply IH].
Qed.

Lemma mem_app (c : ascii) (a b : string) :
  mem c (a ++ b) = mem c a || mem c b.
Proof.
  induction a as [| x a IH]; simpl; [reflexivity |].
  rewrite IH, orb_assoc. reflexivity.
Qed.

Lemma digitChar_code (d : N) :
  (d < 10)%N -> N_of_ascii (digitChar d) = (48 + d)%N.
Proof.
  intros H. unfold digitChar. apply N_ascii_embedding. lia.
Qed.

Lemma isDigit_digitChar (d : N) : (d < 10)%N -> isDigit (digitChar d) = true.
Proof.
  intros H. unfold isDigit. rewrite digitChar_code by exact H.
  apply andb_true_intro. split; apply N.leb_le; lia.
Qed.

Lemma digitVal_digitChar (d : N) : (d < 10)%N -> digitVal (digitChar d) = d.
Proof.
  intros H. unfold digitVal. rewrite digitChar_code by exact H. lia.
Qed.

Lemma mod10_lt (n : N) : (n mod 10 < 10)%N.
Proof. apply N.mod_lt. discriminate. Qed.

Lemma digitsOf_allDigits (fuel : nat) (n : N) :
  allDigits (digitsOf fuel n) = true.
Proof.
  revert n. induction fuel as [| f IH]; intros n; simpl; [reflexivity |].
  rewrite allDigits_app. simpl.
  rewrite isDigit_digitChar by apply mod10_lt.
  destruct (n <? 10)%N; [reflexivity | rewrite IH; reflexivity].
Qed.

Lemma digitsOf_value (fuel : nat) (n : N) :
  (n < 2 ^ N.of_nat fuel)%N -> valueFrom 0 (digitsOf fuel n) = n.
Proof.
  revert n. induction fuel as [| f IH]; intros n Hn.
  - simpl in Hn. simpl. lia.
  - cbn [digitsOf]. rewrite valueFrom_app. cbn [valueFrom].
    rewrite digitVal_digitChar by apply mod10_lt.
    destruct (N.ltb_spec n 10) as [Hs | Hl].
    + cbn [valueFrom]. rewrite N.mod_small by exact Hs. lia.
    + rewrite IH.
      * pose proof (N.div_mod n 10 ltac:(discriminate)). lia.
      * rewrite Nat2N.inj_succ, N.pow_succ_r' in Hn.
        apply N.Div0.div_lt_upper_bound. lia.
Qed.

Lemma digitsOf_nonempty (fuel : nat) (n : N) :
  exists c s, digitsOf (S fuel) n = String c s.
Proof.
  cbn [digitsOf].
  destruct (if (n <? 10)%N then "" else digitsOf fuel (n / 10)) as [| c s];
    simpl; eauto.
Qed.

Lemma log2_fuel (n : N) : (n < 2 ^ N.of_nat (S (N.to_nat (N.log2 n))))%N.
Proof.
  rewrite Nat2N.inj_succ, N2Nat.id.
  destruct (N.eq_dec n 0) as [-> | Hn]; [reflexivity |].
  apply N.log2_spec. lia.
Qed.

Lemma decimal_value (n : N) : valueFrom 0 (decimal n) = n.
Proof. apply digitsOf_value, log2_fuel. Qed.

Lemma decimal_allDigits (n : N) : allDigits (decimal n) = true.
Proof. apply digitsOf_allDigits. Qed.

Lemma decimal_digit (d : N) :
  (d < 10)%N -> decimal d = String (digitChar d) "".
Proof.
  intros H. unfold decimal. cbn [digitsOf].
  destruct (N.ltb_spec d 10) as [_ | Hl]; [| lia].
  rewrite N.mod_small by exact H. reflexivity.
Qed.

Lemma readDigits_app (ds rest : string) (k : nat) (acc : N) :
  allDigits ds = true -> headNotDigit rest = true ->
  readDigits (ds ++ rest) k acc
  = ((k + String.length ds)%nat, valueFrom acc ds, rest).
Proof.
  revert k acc. induction ds as [| c ds IH]; intros k acc Hd Hr.
  - simpl. rewrite Nat.add_0_r.
    destruct rest as [| c rest]; [reflexivity |].
    simpl in *. apply negb_true_iff in Hr. rewrite Hr. reflexivity.
  - simpl in Hd. apply andb_prop in Hd. destruct Hd as [Hc Hd].
    simpl. rewrite Hc. rewrite IH by assumption.
    rewrite Nat.add_succ_r. reflexivity.
Qed.

Lemma digit_not_space_or_sign (c : ascii) (s : string) :
  isDigit c = true ->
  trimStart (String c s) = String c s
  /\ readSign (String c s) = (false, String c s).
Proof.
  destruct c as [[] [] [] [] [] [] [] []]; intros H; try discriminate H;
    split; reflexivity.
Qed.

End Decimals.

(* ================================================================== *)
(** ** Flare classes as strings *)

Section FlareClassStrings.

Local Open Scope string_scope.

Lemma includes_char (s : string) (c : ascii) :
  includes s (String c "") = mem c s.
Proof.
  induction s as [| d s IH]; [reflexivity |].
  cbn [includes startsWith mem]. rewrite IH.
  destruct s; rewrite andb_true_r; reflexivity.
Qed.

Lemma mem_allDigits (c : ascii) (s : string) :
  allDigits s = true -> isDigit c = false -> mem c s = false.
Proof.
  intros Hs Hc. induction s as [| d s IH]; [reflexivity |].
  simpl in Hs. apply andb_prop in Hs. destruct Hs as [Hd Hs].
  simpl. rewrite (IH Hs), orb_false_r.
  destruct (Ascii.eqb_spec c d) as [-> | _]; [congruence | reflexivity].
Qed.

Lemma zeros_allDigits (k : nat) : allDigits (zeros k) = true.
Proof.
  induction k as [| k IH]; [reflexivity | simpl; exact IH].
Qed.

(** [toFixed] prints digits, a sign and a point only. *)
Lemma mem_toFixed (c : ascii) (x : Q) (d : nat) :
  isDigit c = false -> c <> "-"%char -> c <> "."%char ->
  mem c (toFixed x d) = false.
Proof.
  intros Hc Hm Hp. unfold toFixed.
  assert (Hsign : mem c (if ltb x 0 then "-" else "") = false).
  { destruct (ltb x 0); [| reflexivity]. simpl.
    destruct (Ascii.eqb_spec c "-"); [contradiction | reflexivity]. }
  destruct d as [| d]; rewrite !mem_app, Hsign;
    rewrite (mem_allDigits c (decimal _)) by (apply decimal_allDigits || exact Hc);
    [reflexivity |].
  unfold padStart0. cbn [mem]. rewrite mem_app.
  rewrite (mem_allDigits c (zeros _)) by (apply zeros_allDigits || exact Hc).
  rewrite (mem_allDigits c (decimal _)) by (apply decimal_allDigits || exact Hc).
  destruct (Ascii.eqb_spec c "."); [contradiction | reflexivity].
Qed.

Lemma Qabs_nonneg_eq (x : Q) : 0 <= x -> Qabs x = x.
Proof.
  destruct x as [a b]. unfold Qle, Qabs. simpl. intros H.
  rewrite Z.abs_eq by lia. reflexivity.
Qed.

Lemma toFixed1_nonneg (x : Q) :
  0 <= x ->
  let n := Z.to_N (Qfloor (x * 10 + (1 # 2))) in
  toFixed x 1
  = decimal (n / 10)%N ++ "." ++ String (digitChar (n mod 10)%N) "".
Proof.
  intros Hx n. unfold toFixed.
  replace (ltb x 0) with false by (symmetry; apply ltb_false; exact Hx).
  rewrite Qabs_nonneg_eq by exact Hx.
  change (10 ^ N.of_nat 1)%N with 10%N.
  change (inject_Z (Z.of_N 10)) with 10%Q. fold n.
  rewrite (decimal_digit (n mod 10)) by apply mod10_lt.
  reflexivity.
Qed.

Lemma roundTenth_nonneg (x : Q) : 0 <= x -> (0 <= Qfloor (x * 10 + (1 # 2)))%Z.
Proof.
  intros Hx. change 0%Z with (Qfloor 0). apply Qfloor_resp_le. lra.
Qed.

(** Reading back what [toFixed(1)] printed gives the rounded number. *)
Lemma parseFloat_toFixed1 (x : Q) :
  0 <= x ->
  exists v, parseFloat (toFixed x 1) = Some v /\ v == roundTenth x.
Proof.
  intros Hx. rewrite toFixed1_nonneg by exact Hx.
  pose proof (roundTenth_nonneg x Hx) as Hn.
  set (n := Z.to_N (Qfloor (x * 10 + (1 # 2)))).
  destruct (digitsOf_nonempty (N.to_nat (N.log2 (n / 10))) (n / 10))
    as (c & ds & Hcd).
  fold (decimal (n / 10)%N) in Hcd.
  pose proof (decimal_allDigits (n / 10)) as Hall.
  pose proof (decimal_value (n / 10)) as Hval.
  assert (Hc : isDigit c = true).
  { rewrite Hcd in Hall. simpl in Hall. apply andb_prop in Hall. apply Hall. }
  unfold parseFloat.
  replace (trimStart (decimal (n / 10)%N ++ "." ++ String (digitChar (n mod 10)%N) ""))
    with (decimal (n / 10)%N ++ "." ++ String (digitChar (n mod 10)%N) "")
    by (rewrite Hcd; symmetry; apply (digit_not_space_or_sign c _ Hc)).
  replace (readSign (decimal (n / 10)%N ++ "." ++ String (digitChar (n mod 10)%N) ""))
    with (false, decimal (n / 10)%N ++ "." ++ String (digitChar (n mod 10)%N) "")
    by (rewrite Hcd; symmetry; apply (digit_not_space_or_sign c _ Hc)).
  rewrite readDigits_app by (exact Hall || reflexivity).
  rewrite Hval. cbn [append readDigits].
  rewrite isDigit_digitChar by apply mod10_lt.
  rewrite digitVal_digitChar by apply mod10_lt.
  cbn [readDigits readExponent].
  replace ((0 + String.length (decimal (n / 10)%N) + 1 =? 0)%nat) with false
    by (symmetry; apply Nat.eqb_neq; lia).
  eexists. split; [reflexivity |].
  unfold roundTenth, pow10. simpl (10 * 0 + n mod 10)%N.
  change (inject_Z (10 ^ Z.of_nat 1)) with 10%Q.
  change (if (0 <? 0)%Z then 1 / inject_Z (10 ^ (- 0)) else inject_Z (10 ^ 0))
    with 1%Q.
  replace (Qfloor (x * 10 + (1 # 2))) with (Z.of_N n) by (unfold n; lia).
  pose proof (N.div_mod n 10 ltac:(discriminate)) as Hdm.
  rewrite Hdm at 3. rewrite N2Z.inj_add, N2Z.inj_mul.
  rewrite inject_Z_plus, inject_Z_mult.
  change (inject_Z (Z.of_N 10)) with 10%Q. field.
Qed.

End FlareClassStrings.

(* ================================================================== *)
(** ** Danger scorer *)

Lemma dangerScore_sum (lastKp avgWind : Q) (avgFlareClass : string) :
  dangerScore lastKp avgWind avgFlareClass
  = (kpContribution lastKp + windContribution avgWind
     + flarePart avgFlareClass)%Z.
Proof.
  unfold dangerScore, kpContribution, windContribution, flarePart, geb.
  repeat match goal with
  | |- context [if ?b then _ else _] => destruct b
  end; reflexivity.
Qed.

Lemma flarePart_plain (letter : ascii) (x : Q) :
  letter <> "X"%char -> letter <> "M"%char ->
  flarePart (String letter (toFixed x 1)) = 0%Z.
Proof.
  intros HX HM. unfold flarePart. rewrite !includes_char. cbn [mem].
  rewrite !mem_toFixed by (reflexivity || discriminate).
  destruct (Ascii.eqb_spec "X" letter) as [E | _]; [congruence |].
  destruct (Ascii.eqb_spec "M" letter) as [E | _]; [congruence |].
  reflexivity.
Qed.

Lemma flarePart_X (x : Q) : flarePart (String "X" (toFixed x 1)) = 3%Z.
Proof. reflexivity. Qed.

Lemma flarePart_M (x : Q) :
  0 <= x ->
  flarePart (String "M" (toFixed x 1))
  = if Qle_bool 5 (roundTenth x) then 2%Z else 1%Z.
Proof.
  intros Hx. unfold flarePart. rewrite !includes_char. cbn [mem].
  rewrite mem_toFixed by (reflexivity || discriminate).
  change (Ascii.eqb "X" "M") with false. change (Ascii.eqb "M" "M") with true.
  cbn [orb].
  change (replace (String "M" (toFixed x 1)) "M" "") with (toFixed x 1).
  destruct (parseFloat_toFixed1 x Hx) as (v & Hv & Ev).
  rewrite Hv. unfold geNaN, geb. rewrite Ev. reflexivity.
Qed.

(** On the class of a flux, the flare rule of the score is the
    specification's table. *)
Lemma flarePart_getFlareClass (flux : Q) :
  flarePart (getFlareClass flux) = flareContribution flux.
Proof.
  unfold getFlareClass, flareContribution, flareLetter, mantissaM.
  destruct (ltb flux (1 # 10000000)) eqn:EA;
    [apply flarePart_plain; discriminate |].
  destruct (ltb flux (1 # 1000000)) eqn:EB;
    [apply flarePart_plain; discriminate |].
  destruct (ltb flux (1 # 100000)) eqn:EC;
    [apply flarePart_plain; discriminate |].
  destruct (ltb flux (1 # 10000)) eqn:EM; [| apply flarePart_X].
  apply flarePart_M. order_facts.
  apply Qle_shift_div_l; [reflexivity | lra].
Qed.

Lemma dangerLabel_cases (score : Z) :
  DangerIndex.score (dangerLabel score) = score
  /\ (DangerIndex.label (dangerLabel score) = "ВЫСОКИЙ"%string
      <-> (5 <= score)%Z)
  /\ (DangerIndex.label (dangerLabel score) = "УМЕРЕННЫЙ"%string
      <-> (3 <= score < 5)%Z)
  /\ (DangerIndex.label (dangerLabel score) = "ФОНОВЫЙ"%string
      <-> (score < 3)%Z).
Proof.
  unfold dangerLabel.
  destruct (Z.leb_spec 5 score); [| destruct (Z.leb_spec 3 score)];
    simpl; repeat split; intros; try lia; try reflexivity; discriminate.
Qed.

Lemma contributions_bounds (kp wind flux : Q) :
  (0 <= kpContribution kp <= 4)%Z
  /\ (0 <= windContribution wind <= 3)%Z
  /\ (0 <= flareContribution flux <= 3)%Z.
Proof.
  unfold kpContribution, windContribution, flareContribution.
  repeat match goal with
  | |- context [if ?b then _ else _] => destruct b
  | |- context [match ?l with LA => _ | _ => _ end] => destruct l
  end; lia.
Qed.




Lemma Qle_bool_mono (t a b : Q) :
  a <= b -> Qle_bool t a = true -> Qle_bool t b = true.
Proof.
  intros Hab H. apply Qle_bool_iff in H. apply Qle_bool_iff. lra.
Qed.

Lemma kpContribution_mono (a b : Q) :
  a <= b -> (kpContribution a <= kpContribution b)%Z.
Proof.
  intros Hab. unfold kpContribution.
  destruct (Qle_bool 7 a) eqn:E7;
    [rewrite (Qle_bool_mono 7 a b Hab E7); lia |].
  destruct (Qle_bool 5 a) eqn:E5;
    [rewrite (Qle_bool_mono 5 a b Hab E5); destruct (Qle_bool 7 b); lia |].
  destruct (Qle_bool 4 a) eqn:E4;
    [rewrite (Qle_bool_mono 4 a b Hab E4);
     destruct (Qle_bool 7 b), (Qle_bool 5 b); lia |].
  destruct (Qle_bool 3 a) eqn:E3;
    [rewrite (Qle_bool_mono 3 a b Hab E3);
     destruct (Qle_bool 7 b), (Qle_bool 5 b), (Qle_bool 4 b); lia |].
  destruct (Qle_bool 7 b), (Qle_bool 5 b), (Qle_bool 4 b), (Qle_bool 3 b); lia.
Qed.

Lemma windContribution_mono (a b : Q) :
  a <= b -> (windContribution a <= windContribution b)%Z.
Proof.
  intros Hab. unfold windContribution.
  destruct (Qle_bool 700 a) eqn:E7;
    [rewrite (Qle_bool_mono 700 a b Hab E7); lia |].
  destruct (Qle_bool 500 a) eqn:E5;
    [rewrite (Qle_bool_mono 500 a b Hab E5); destruct (Qle_bool 700 b); lia |].
  destruct (Qle_bool 400 a) eqn:E4;
    [rewrite (Qle_bool_mono 400 a b Hab E4);
     destruct (Qle_bool 700 b), (Qle_bool 500 b); lia |].
  destruct (Qle_bool 700 b), (Qle_bool 500 b), (Qle_bool 400 b); lia.
Qed.

Lemma roundTenth_mono (x y : Q) : x <= y -> roundTenth x <= roundTenth y.
Proof.
  intros H. unfold roundTenth.
  apply Qmult_le_compat_r; [| discriminate].
  rewrite <- Zle_Qle. apply Qfloor_resp_le. lra.
Qed.

Lemma mantissaM_mono (a b : Q) : a <= b -> mantissaM a <= mantissaM b.
Proof.
  intros H. unfold mantissaM. apply roundTenth_mono.
  apply Qmult_le_compat_r; [exact H | discriminate].
Qed.

Lemma flareLetter_mono (a b : Q) :
  a <= b -> (letterRank (flareLetter a) <= letterRank (flareLetter b))%Z.
Proof.
  intros Hab. unfold flareLetter.
  destruct (ltb a (1 # 10000000)) eqn:A1; destruct (ltb b (1 # 10000000)) eqn:B1;
  destruct (ltb a (1 # 1000000)) eqn:A2; destruct (ltb b (1 # 1000000)) eqn:B2;
  destruct (ltb a (1 # 100000)) eqn:A3; destruct (ltb b (1 # 100000)) eqn:B3;
  destruct (ltb a (1 # 10000)) eqn:A4; destruct (ltb b (1 # 10000)) eqn:B4;
    simpl; try lia; by_order.
Qed.

(** The flare contribution grows with the severity of the class: with
    the rank of the letter, and within M with the mantissa. *)
Lemma flareContribution_severity (a b : Q) :
  (letterRank (flareLetter a) < letterRank (flareLetter b))%Z
  \/ (flareLetter a = flareLetter b /\ mantissaM a <= mantissaM b) ->
  (flareContribution a <= flareContribution b)%Z.
Proof.
  unfold flareContribution.
  intros [Hlt | [Heq Hm]].
  - destruct (flareLetter a), (flareLetter b); simpl in Hlt; try lia;
      repeat match goal with
      | |- context [if ?c then _ else _] => destruct c
      end; lia.
  - rewrite <- Heq. destruct (flareLetter a); try lia.
    destruct (Qle_bool 5 (mantissaM a)) eqn:E5;
      [rewrite (Qle_bool_mono 5 _ _ Hm E5); lia |].
    destruct (Qle_bool 5 (mantissaM b)); lia.
Qed.

Lemma flareContribution_mono (a b : Q) :
  a <= b -> (flareContribution a <= flareContribution b)%Z.
Proof.
  intros Hab. apply flareContribution_severity.
  pose proof (flareLetter_mono a b Hab) as Hr.
  destruct (Z.eq_dec (letterRank (flareLetter a)) (letterRank (flareLetter b)))
    as [E | NE]; [right | left; lia].
  split; [| apply mantissaM_mono; exact Hab].
  destruct (flareLetter a), (flareLetter b); simpl in E; congruence || lia.
Qed.

(** C5.  With the other two inputs fixed, the danger score does not
    decrease when the last Kp grows, when the 6-sample average wind
    speed grows, or when the flare severity grows: the letter of the
    class climbs A, B, C, M, X with the flux, within M the mantissa
    climbs with the flux, and a class that is higher in that order
    never scores less. *)
Theorem danger_score_monotone (kp kp' wind wind' flux flux' : Q)
    (avgFlareClass : string) :
  kp <= kp' -> wind <= wind' -> flux <= flux' ->
  (dangerScore kp wind avgFlareClass <= dangerScore kp' wind avgFlareClass)%Z
  /\ (dangerScore kp wind avgFlareClass
      <= dangerScore kp wind' avgFlareClass)%Z
  /\ (dangerScore kp wind (getFlareClass flux)
      <= dangerScore kp wind (getFlareClass flux'))%Z
  /\ (letterRank (flareLetter flux) <= letterRank (flareLetter flux'))%Z
  /\ mantissaM flux <= mantissaM flux'
  /\ (forall a b,
        (letterRank (flareLetter a) < letterRank (flareLetter b))%Z
        \/ (flareLetter a = flareLetter b /\ mantissaM a <= mantissaM b) ->
        (dangerScore kp wind (getFlareClass a)
         <= dangerScore kp wind (getFlareClass b))%Z).
Proof.
  intros Hk Hw Hf. rewrite !dangerScore_sum, !flarePart_getFlareClass.
  pose proof (kpContribution_mono kp kp' Hk).
  pose proof (windContribution_mono wind wind' Hw).
  pose proof (flareContribution_mono flux flux' Hf).
  repeat split; try lia.
  - apply flareLetter_mono; exact Hf.
  - apply mantissaM_mono; exact Hf.
  - intros a b Hab. rewrite !dangerScore_sum, !flarePart_getFlareClass.
    pose proof (flareContribution_severity a b Hab). lia.
Qed.

Lemma danger_score_monotone_witness :
  (dangerScore 3 450 "C2.0" <= dangerScore 5 450 "C2.0")%Z
  /\ (dangerScore 3 450 "C2.0" <= dangerScore 3 720 "C2.0")%Z
  /\ (dangerScore 3 450 (getFlareClass (2 # 100000))
      <= dangerScore 3 450 (getFlareClass (7 # 100000)))%Z.
Proof.
  pose proof (danger_score_monotone 3 5 450 720 (2 # 100000) (7 # 100000)
                "C2.0" ltac:(discriminate) ltac:(discriminate)
                ltac:(discriminate)) as (H1 & H2 & H3 & _).
  exact (conj H1 (conj H2 H3)).
Defined.

(* ================================================================== *)
(** ** Further properties: travel time *)

Lemma Qfloor_lt_Z (y : Q) (z : Z) : y < inject_Z z -> (Qfloor y < z)%Z.
Proof.
  intros H. pose proof (Qfloor_le y). rewrite Zlt_Qlt.
  apply Qle_lt_trans with y; assumption.
Qed.

Lemma Qfloor_ge_Z (y : Q) (z : Z) : inject_Z z <= y -> (z <= Qfloor y)%Z.
Proof. intros H. rewrite <- (Qfloor_Z z). apply Qfloor_resp_le, H. Qed.

Lemma Qfloor_le_Z (y : Q) (z : Z) : y <= inject_Z z -> (Qfloor y <= z)%Z.
Proof. intros H. rewrite <- (Qfloor_Z z). apply Qfloor_resp_le, H. Qed.

(** The rounded quotient of a whole number of minutes by 60 has the
    floor of the exact one, as long as the number is not huge. *)
Lemma floor_fl64_div60 (M : Z) :
  (0 <= M <= 1000000000000)%Z ->
  Qfloor (fl64 (inject_Z M / 60)) = (M / 60)%Z.
Proof.
  intros HM.
  pose proof (Z.div_mod M 60 ltac:(lia)) as Hdm.
  pose proof (Z.mod_pos_bound M 60 ltac:(lia)) as Hr.
  assert (Hk : (0 <= M / 60 <= 1000000000000)%Z).
  { split; [apply Z.div_pos; lia | apply Z.div_le_upper_bound; lia]. }
  assert (EM : inject_Z M / 60 == inject_Z (M / 60) + inject_Z (M mod 60) / 60).
  { rewrite Hdm at 1. rewrite inject_Z_plus, inject_Z_mult.
    change (inject_Z 60) with 60. field. }
  assert (Hr0 : 0 <= inject_Z (M mod 60))
    by (change 0 with (inject_Z 0); rewrite <- Zle_Qle; lia).
  assert (Hr59 : inject_Z (M mod 60) <= 59)
    by (change 59 with (inject_Z 59); rewrite <- Zle_Qle; lia).
  assert (H53 : (2 ^ 53 = 9007199254740992)%Z) by reflexivity.
  assert (Hd0 : 0 <= inject_Z (M mod 60) / 60)
    by (apply Qle_shift_div_l; [reflexivity | lra]).
  assert (Hd1 : inject_Z (M mod 60) / 60 <= 59 # 60)
    by (apply Qle_shift_div_r; [reflexivity | lra]).
  set (k := (M / 60)%Z) in *. set (d := inject_Z (M mod 60) / 60) in *.
  clearbody d. clear Hr0 Hr59.
  apply Z.le_antisymm.
  - apply Z.lt_succ_r. apply Qfloor_lt_Z.
    apply Qle_lt_trans with (inject_Z ((k + 1) * 1024 - 1) * 2 ^ (-10)).
    + rewrite <- fl64_representable by lia.
      apply fl64_mono. rewrite EM.
      unfold Zminus. rewrite inject_Z_plus, inject_Z_mult, inject_Z_plus.
      change (2 ^ (-10)) with (1 # 1024).
      change (inject_Z 1024) with 1024. change (inject_Z 1) with 1.
      change (inject_Z (- (1))) with (- (1)).
      clear EM. generalize (inject_Z k). intros q. lra.
    + unfold Zminus, Z.succ.
      rewrite !inject_Z_plus, inject_Z_mult, inject_Z_plus.
      change (2 ^ (-10)) with (1 # 1024).
      change (inject_Z 1024) with 1024. change (inject_Z 1) with 1.
      change (inject_Z (- (1))) with (- (1)).
      generalize (inject_Z k). intros q. lra.
  - apply Qfloor_ge_Z. apply fl64_ge_Z; [lia |]. rewrite EM.
    clear EM. generalize (inject_Z k). intros q. lra.
Qed.

(** At a speed of 1 km/s or more the hours and minutes are the quotient
    and the remainder by 60 of one whole number of minutes: the floor
    of the twice rounded quotient. *)
Lemma travel_minutes (speed : Q) :
  1 <= speed ->
  let M := Qfloor (fl64 (fl64 (1500000 / speed) / 60)) in
  calculateTravelTimeParts speed = TravelTime.mk (M / 60) (M mod 60)
  /\ (0 <= M <= 25000)%Z.
Proof.
  intros H1 M.
  assert (Hs : 0 < speed) by lra.
  assert (H53 : (2 ^ 53 = 9007199254740992)%Z) by reflexivity.
  assert (HD : 0 <= 1500000 / speed /\ 1500000 / speed <= 1500000).
  { split; [apply Qle_shift_div_l; lra | apply Qle_shift_div_r; lra]. }
  assert (HS : 0 <= fl64 (1500000 / speed)
               /\ fl64 (1500000 / speed) <= 1500000).
  { split; [apply fl64_nonneg, HD |].
    change 1500000 with (inject_Z 1500000) at 2. apply fl64_le_Z; [lia |].
    apply HD. }
  assert (HY : 0 <= fl64 (fl64 (1500000 / speed) / 60)
               /\ fl64 (fl64 (1500000 / speed) / 60) <= 25000).
  { split.
    - apply fl64_nonneg. apply Qle_shift_div_l; [reflexivity | lra].
    - change 25000 with (inject_Z 25000). apply fl64_le_Z; [lia |].
      change (inject_Z 25000) with 25000.
      apply Qle_shift_div_r; [reflexivity | lra]. }
  assert (HM : (0 <= M <= 25000)%Z).
  { unfold M. split; [apply Qfloor_ge_Z | apply Qfloor_le_Z]; apply HY. }
  split; [| exact HM].
  unfold calculateTravelTimeParts.
  replace (Qle_bool speed 0) with false
    by (symmetry; apply (geb_false 0 speed); exact Hs).
  cbv zeta. unfold Math_floor. fold M.
  rewrite floor_fl64_div60 by lia. rewrite Z.rem_mod_nonneg by lia.
  reflexivity.
Qed.

(** Below some speed the hours and minutes no longer add up to the
    minutes they were cut from, and a faster wind can be shown a longer
    time: at the two neighbouring doubles near 1.46e-13 km/s the minute
    count is beyond [2^53], its quotient by 60 rounds to the same whole
    number of hours, and the minutes go from 28 to 56. *)
Lemma travel_time_recombination_limit :
  let slow := 2891358789280717 # 19807040628566084398385987584 in
  let quick := 5782717578561435 # 39614081257132168796771975168 in
  fl64 slow = slow /\ fl64 quick = quick /\ slow < quick
  /\ calculateTravelTimeParts slow = TravelTime.mk 2854344340049527 28
  /\ calculateTravelTimeParts quick = TravelTime.mk 2854344340049527 56.
Proof.
  repeat split; vm_compute; reflexivity.
Qed.

(** X1.  The travel time from L1 at a speed of 1 km/s or more: hours and
    minutes are not negative, the minutes stay below 60, together they
    are the floor of the quotient as the machine stores it (1.5 million
    km over the speed, then over 60, each rounded to a double), and
    this time is within one minute of the exact travel time. *)
Theorem travel_time_parts (speed : Q) :
  1 <= speed ->
  let t := calculateTravelTimeParts speed in
  (0 <= TravelTime.hours t)%Z
  /\ (0 <= TravelTime.minutes t < 60)%Z
  /\ travelMinutes t = Qfloor (fl64 (fl64 (1500000 / speed) / 60))
  /\ (inject_Z (travelMinutes t) - 1) * 60 < 1500000 / speed
  /\ 1500000 / speed < (inject_Z (travelMinutes t) + 1) * 60.
Proof.
  intros H1 t.
  destruct (travel_minutes speed H1) as [Et HM].
  set (M := Qfloor (fl64 (fl64 (1500000 / speed) / 60))) in *.
  assert (H53 : (2 ^ 53 = 9007199254740992)%Z) by reflexivity.
  assert (Hx : 0 <= 1500000 / speed) by (apply Qle_shift_div_l; lra).
  assert (ET : travelMinutes t = M).
  { unfold t. rewrite Et. unfold travelMinutes.
    cbn [TravelTime.hours TravelTime.minutes].
    pose proof (Z.div_mod M 60 ltac:(lia)). lia. }
  unfold t at 1 2 3. rewrite Et. cbn [TravelTime.hours TravelTime.minutes].
  split; [apply Z.div_pos; lia |].
  split; [apply Z.mod_pos_bound; lia |].
  split; [exact ET |]. rewrite ET.
  split.
  - destruct (Z.eq_dec M 0) as [E0 | N0].
    + rewrite E0. change (inject_Z 0) with 0. lra.
    + apply Qnot_le_lt. intros C.
      assert (C1 : 1500000 / speed <= inject_Z (60 * (M - 1))).
      { rewrite inject_Z_mult. unfold Zminus. rewrite inject_Z_plus.
        change (inject_Z 60) with 60. change (inject_Z (- (1))) with (- (1)).
        lra. }
      apply fl64_le_Z in C1; [| lia].
      assert (C2 : fl64 (1500000 / speed) / 60 <= inject_Z (M - 1)).
      { apply Qle_shift_div_r; [reflexivity |].
        rewrite inject_Z_mult in C1. change (inject_Z 60) with 60 in C1. lra. }
      apply fl64_le_Z in C2; [| lia].
      apply Qfloor_le_Z in C2. fold M in C2. lia.
  - apply Qnot_le_lt. intros C.
    assert (C1 : inject_Z (60 * (M + 1)) <= 1500000 / speed).
    { rewrite inject_Z_mult, inject_Z_plus.
      change (inject_Z 60) with 60. change (inject_Z 1) with 1. lra. }
    apply fl64_ge_Z in C1; [| lia].
    assert (C2 : inject_Z (M + 1) <= fl64 (1500000 / speed) / 60).
    { apply Qle_shift_div_l; [reflexivity |].
      rewrite inject_Z_mult in C1. change (inject_Z 60) with 60 in C1. lra. }
    apply fl64_ge_Z in C2; [| lia].
    apply Qfloor_ge_Z in C2. fold M in C2. lia.
Qed.

Lemma travel_time_parts_witness :
  calculateTravelTimeParts 400 = TravelTime.mk 1 2
  /\ calculateTravelTimeParts (fl64 (8333333333333334 # 10000000000000))
     = TravelTime.mk 0 30
  /\ 1500000 / 400
     < (inject_Z (travelMinutes (calculateTravelTimeParts 400)) + 1) * 60.
Proof.
  split; [reflexivity |]. split; [reflexivity |].
  apply (travel_time_parts 400). discriminate.
Defined.

(** X2.  At speeds of 1 km/s or more a faster wind never arrives later,
    and a wind that does not move towards Earth is shown as 0 hours
    0 minutes. *)
Theorem travel_time_antitone (slow quick stalled : Q) :
  1 <= slow -> slow <= quick -> stalled <= 0 ->
  (travelMinutes (calculateTravelTimeParts quick)
   <= travelMinutes (calculateTravelTimeParts slow))%Z
  /\ calculateTravelTimeParts stalled = TravelTime.mk 0 0.
Proof.
  intros Hs Hq Hst. split.
  - assert (Hquick : 1 <= quick) by lra.
    destruct (travel_minutes slow Hs) as [-> Hms].
    destruct (travel_minutes quick Hquick) as [-> Hmq].
    unfold travelMinutes. cbn [TravelTime.hours TravelTime.minutes].
    assert (Hle : (Qfloor (fl64 (fl64 (1500000 / quick) / 60))
                   <= Qfloor (fl64 (fl64 (1500000 / slow) / 60)))%Z).
    { apply Qfloor_resp_le, fl64_mono.
      apply Qmult_le_compat_r; [| discriminate].
      apply fl64_mono.
      apply Qle_shift_div_l; [lra |].
      assert (E : 1500000 / quick * slow == 1500000 * (slow / quick))
        by (field; intros H; lra).
      rewrite E.
      assert (slow / quick <= 1) by (apply Qle_shift_div_r; lra).
      lra. }
    pose proof (Z.div_mod (Qfloor (fl64 (fl64 (1500000 / quick) / 60))) 60
                  ltac:(lia)).
    pose proof (Z.div_mod (Qfloor (fl64 (fl64 (1500000 / slow) / 60))) 60
                  ltac:(lia)).
    lia.
  - unfold calculateTravelTimeParts.
    replace (Qle_bool stalled 0) with true
      by (symmetry; apply Qle_bool_iff; exact Hst).
    reflexivity.
Qed.

Lemma travel_time_antitone_witness :
  (travelMinutes (calculateTravelTimeParts 700)
   <= travelMinutes (calculateTravelTimeParts 350))%Z
  /\ calculateTravelTimeParts (-20) = TravelTime.mk 0 0.
Proof.
  apply (travel_time_antitone 350 700 (-20)); discriminate.
Defined.

(* ================================================================== *)
(** ** Further properties: the windowed average and the trends *)

Lemma fold64_mono (l l' : list Q) (a a' : Q) :
  Forall2 Qle l l' -> a <= a' ->
  fold_left (fun acc x => fl64 (acc + x)) l a
  <= fold_left (fun acc x => fl64 (acc + x)) l' a'.
Proof.
  intros H. revert a a'. induction H as [| x y l l' Hxy _ IH]; intros a a' Ha.
  - exact Ha.
  - cbn [fold_left]. apply IH. apply fl64_mono. lra.
Qed.

Lemma mean64_mono (l l' : list Q) : Forall2 Qle l l' -> mean64 l <= mean64 l'.
Proof.
  intros H. pose proof (Forall2_length H) as Hlen.
  pose proof (fold64_mono l l' 0 0 H ltac:(lra)) as Hsum.
  destruct H as [| x y l l' Hxy H]; [apply Qle_refl |].
  rewrite !mean64_nonempty by discriminate.
  apply fl64_mono. rewrite <- Hlen.
  apply Qmult_le_compat_r; [exact Hsum |].
  apply Qlt_le_weak, Qinv_lt_0_compat, inject_nat_pos. simpl. lia.
Qed.

Lemma fold64_nonneg (l : list Q) (a : Q) :
  (forall x, In x l -> 0 <= x) -> 0 <= a ->
  0 <= fold_left (fun acc x => fl64 (acc + x)) l a.
Proof.
  revert a. induction l as [| x l IH]; intros a Hl Ha; [exact Ha |].
  cbn [fold_left]. apply IH.
  - intros y Hy. apply Hl. right. exact Hy.
  - apply fl64_nonneg. pose proof (Hl x (or_introl eq_refl)). lra.
Qed.

Lemma mean64_nonneg (l : list Q) :
  (forall x, In x l -> 0 <= x) -> 0 <= mean64 l.
Proof.
  intros Hl. destruct l as [| x l]; [apply Qle_refl |].
  rewrite mean64_nonempty by discriminate.
  apply fl64_nonneg. apply Qle_shift_div_l.
  - apply inject_nat_pos. simpl. lia.
  - rewrite Qmult_0_l. apply fold64_nonneg; [exact Hl | apply Qle_refl].
Qed.

Lemma Forall2_map_Qle {A : Type} (f : A -> Q) (l l' : list A) :
  Forall2 (fun a b => f a <= f b) l l' -> Forall2 Qle (map f l) (map f l').
Proof.
  intros H. induction H; simpl; constructor; assumption.
Qed.

(** X3.  Raising samples never lowers the average, rounding included: two
    windows of the same length whose samples are ordered pair by pair
    have averages in the same order.  A window without a negative
    sample has no negative average. *)
Theorem getAverage_monotone {A : Type} (lower upper : list A) (f : A -> Q)
    (count : nat) :
  (1 <= count)%nat ->
  Forall2 (fun a b => f a <= f b) (lastN count lower) (lastN count upper) ->
  getAverage lower (fun a => VNum (f a)) count
  <= getAverage upper (fun a => VNum (f a)) count
  /\ ((forall a, In a (lastN count lower) -> 0 <= f a) ->
      0 <= getAverage lower (fun a => VNum (f a)) count).
Proof.
  intros Hc H. rewrite !getAverage_mean, !lastN_min by exact Hc. split.
  - apply mean64_mono, Forall2_map_Qle, H.
  - intros Hpos. apply mean64_nonneg.
    intros x Hx. apply in_map_iff in Hx. destruct Hx as (a & <- & Ha).
    apply Hpos, Ha.
Qed.

Lemma getAverage_monotone_witness :
  getAverage (windOf [900; 400; 450; 500]) speedKey 3
  <= getAverage (windOf [410; 450; 650]) speedKey 3.
Proof.
  assert (H : Forall2 (fun a b => WindDataPoint.speed a <= WindDataPoint.speed b)
                (lastN 3 (windOf [900; 400; 450; 500]))
                (lastN 3 (windOf [410; 450; 650]))).
  { cbn. repeat constructor; discriminate. }
  exact (proj1 (getAverage_monotone (windOf [900; 400; 450; 500])
                  (windOf [410; 450; 650]) WindDataPoint.speed 3
                  ltac:(lia) H)).
Defined.

(** X4.  Only the last [count] samples count: putting any older samples in
    front of a series that already has [count] of them changes nothing. *)
Theorem getAverage_ignores_older {A : Type} (older recent : list A)
    (key : A -> value) (count : nat) :
  (1 <= count)%nat -> (count <= List.length recent)%nat ->
  getAverage (older ++ recent) key count = getAverage recent key count.
Proof.
  intros Hc Hr. unfold getAverage.
  destruct recent as [| r recent]; [simpl in Hr; lia |].
  replace (List.length (older ++ r :: recent) =? 0)%nat with false
    by (symmetry; apply Nat.eqb_neq; rewrite length_app; simpl; lia).
  cbn [Datatypes.length Nat.eqb].
  rewrite !slice_last by exact Hc.
  assert (E : lastN count (older ++ r :: recent) = lastN count (r :: recent)).
  { unfold lastN. rewrite length_app.
    rewrite skipn_app.
    replace (List.length older + List.length (r :: recent) - count
             - List.length older)%nat
      with (List.length (r :: recent) - count)%nat by lia.
    rewrite skipn_all2 by lia. reflexivity. }
  rewrite E. reflexivity.
Qed.

Lemma getAverage_ignores_older_witness :
  getAverage (windOf [900; 100] ++ windOf [400; 450; 500]) speedKey 3
  = getAverage (windOf [400; 450; 500]) speedKey 3.
Proof.
  apply (getAverage_ignores_older (windOf [900; 100]) (windOf [400; 450; 500])
           speedKey 3); simpl; lia.
Defined.

(** X5.  Cold start: with at most 6 wind samples there is no previous
    window, the previous value is the current average and the wind
    trend phrase is the stable one, whatever the speeds. *)
Theorem wind_trend_cold_start (wind : list WindDataPoint.t) :
  (List.length wind <= 6)%nat ->
  prevWindOf wind = avgWindOf wind
  /\ windTrend (avgWindOf wind) (prevWindOf wind)
     = "Скорость потока стабильна."%string.
Proof.
  intros Hlen.
  assert (E : prevWindOf wind = avgWindOf wind).
  { unfold prevWindOf. change (- 6)%Z with (- Z.of_nat 6)%Z.
    rewrite slice_init by lia.
    replace (List.length wind - 6)%nat with 0%nat by lia. reflexivity. }
  split; [exact E |]. rewrite E. unfold windTrend.
  assert (Z0 : avgWindOf wind - avgWindOf wind == 0) by ring.
  replace (gtb (avgWindOf wind - avgWindOf wind) 50) with false
    by (symmetry; apply gtb_false; rewrite Z0; discriminate).
  replace (ltb (avgWindOf wind - avgWindOf wind) (-50)) with false
    by (symmetry; apply ltb_false; rewrite Z0; discriminate).
  reflexivity.
Qed.

Lemma wind_trend_cold_start_witness :
  windTrend (avgWindOf (windOf [300; 900; 900]))
            (prevWindOf (windOf [300; 900; 900]))
  = "Скорость потока стабильна."%string.
Proof.
  apply (wind_trend_cold_start (windOf [300; 900; 900])). simpl. lia.
Defined.


(* ================================================================== *)
(** ** Further properties: the report and the score *)

Lemma at_three (a b c : string) (i : Z) :
  at_ [a; b; c] i = None \/ at_ [a; b; c] i = Some a
  \/ at_ [a; b; c] i = Some b \/ at_ [a; b; c] i = Some c.
Proof.
  unfold at_. destruct (i <? 0)%Z; [left; reflexivity |].
  destruct (Z.to_nat i) as [| [| [| n]]]; simpl; auto.
  destruct n; auto.
Qed.

Lemma statusSection_tier (lastKp prevKp : Q) (w : World) :
  exists st,
    statusSection lastKp prevKp w = Ok (st, advance w)
    /\ statusTier st = kpContribution lastKp
    /\ startsWith st "СТАТУС: " = true.
Proof.
  unfold statusSection, kpContribution, geb.
  destruct (Qle_bool 7 lastKp);
    [unfold bind; rewrite pick_run; eexists; split; [reflexivity |];
     split; reflexivity |].
  destruct (Qle_bool 5 lastKp);
    [unfold bind; rewrite pick_run; eexists; split; [reflexivity |];
     split; reflexivity |].
  destruct (Qle_bool 4 lastKp);
    [unfold bind; rewrite pick_run; eexists; split; [reflexivity |];
     split; reflexivity |].
  destruct (Qle_bool 3 lastKp);
    [unfold bind; rewrite pick_run; eexists; split; [reflexivity |];
     split; reflexivity |].
  unfold bind. rewrite pick_run. eexists. split; [reflexivity |].
  destruct (at_three "Геомагнитный штиль." "Спокойная геомагнитная обстановка."
              "Магнитосфера в состоянии покоя."
              (Math_floor (random w (drawn w)
                 * inject_Z (Z.of_nat
                     (List.length ["Геомагнитный штиль."%string;
                                   "Спокойная геомагнитная обстановка."%string;
                                   "Магнитосфера в состоянии покоя."%string])))))
    as [E | [E | [E | E]]]; rewrite E; split; reflexivity.
Qed.

Lemma section_headings (windData : list WindDataPoint.t)
    (protonData : list ProtonDataPoint.t)
    (lastKp avgWind prevWind avgProton nextKp : Q) (avgFlareClass : string)
    (w : World) (ft : string) (w3 : World) :
  forecastSection nextKp lastKp w = Ok (ft, w3) ->
  startsWith (dynamicsSection windData lastKp avgWind prevWind avgProton)
             "ДИНАМИКА: " = true
  /\ startsWith ft "ПРОГНОЗ: " = true
  /\ startsWith (physicsSection protonData avgFlareClass avgProton)
                "ФИЗИКА: " = true.
Proof.
  intros Hf. split; [| split].
  - unfold dynamicsSection.
    destruct (geb avgWind 500); [destruct (ltb lastKp 4) |]; reflexivity.
  - unfold forecastSection in Hf.
    destruct (gtb nextKp lastKp);
      [| destruct (ltb nextKp lastKp && geb lastKp 4)];
      unfold bind, ret in Hf; try rewrite pick_run in Hf;
      inversion Hf; reflexivity.
  - unfold physicsSection.
    destruct (includes avgFlareClass "X"); [| destruct (geb avgProton 10)];
      reflexivity.
Qed.

(** X7.  Whatever the snapshot, the captured state and the draws, the
    report is four paragraphs separated by blank lines, opening in this
    order with the headings of status, dynamics, forecast and physics;
    and the storm level the status paragraph names is the one the score
    counts for Kp. *)
Theorem report_has_four_headed_sections (render : AppState)
    (kp : list KpDataPoint.t) (wind : list WindDataPoint.t)
    (flares : list FlareDataPoint.t) (protons : list ProtonDataPoint.t)
    (forecast : list ForecastDataPoint.t) (w : World) :
  exists w' st dyn ft ph,
    analyzeData render kp wind flares protons forecast w = Ok (tt, w')
    /\ report (next w')
       = (st ++ blankLine ++ dyn ++ blankLine ++ ft ++ blankLine ++ ph)%string
    /\ startsWith st "СТАТУС: " = true
    /\ startsWith dyn "ДИНАМИКА: " = true
    /\ startsWith ft "ПРОГНОЗ: " = true
    /\ startsWith ph "ФИЗИКА: " = true
    /\ statusTier st = kpContribution (lastKpOf kp).
Proof.
  destruct (analyzeData_run render kp wind flares protons forecast w)
    as (nextKp & w1 & st & ft & w3 & w' & _ & _ & Hs & Hf & Hrun & Hrep & _).
  destruct (statusSection_tier (lastKpOf kp) (prevKpOf kp) w1)
    as (st' & Hs' & Htier & Hhead).
  rewrite Hs in Hs'. inversion Hs'; subst st'; clear Hs'.
  destruct (section_headings (windData render) (protonData render)
              (lastKpOf kp) (avgWindOf wind) (prevWindOf wind)
              (getAverage protons protonKey 6) nextKp
              (getFlareClass (getAverage flares fluxKey 12))
              (advance w1) ft w3 Hf) as (Hd & Hft & Hp).
  exists w', st. do 3 eexists.
  split; [exact Hrun |]. split; [rewrite Hrep; reflexivity |].
  repeat split; assumption.
Qed.

(** X8.  The HIGH label needs two elevated signals: when it is shown, at
    least two of the three contributions are positive, since none of
    them alone reaches 5. *)
Theorem high_needs_two_signals (render : AppState)
    (kp : list KpDataPoint.t) (wind : list WindDataPoint.t)
    (flares : list FlareDataPoint.t) (protons : list ProtonDataPoint.t)
    (forecast : list ForecastDataPoint.t) (w w' : World) :
  analyzeData render kp wind flares protons forecast w = Ok (tt, w') ->
  DangerIndex.label (dangerIndex (next w')) = "ВЫСОКИЙ"%string ->
  let k := kpContribution (lastKpOf kp) in
  let v := windContribution (getAverage wind speedKey 6) in
  let f := flareContribution (getAverage flares fluxKey 12) in
  (0 < k /\ 0 < v)%Z \/ (0 < k /\ 0 < f)%Z \/ (0 < v /\ 0 < f)%Z.
Proof.
  intros Hrun Hlabel k v f.
  destruct (analyzeData_run render kp wind flares protons forecast w)
    as (nextKp & w1 & st & ft & w3 & w'' & _ & _ & _ & _ & Hrun' & _ & Hdi & _).
  rewrite Hrun in Hrun'. inversion Hrun'; subst w''; clear Hrun'.
  rewrite Hdi in Hlabel.
  apply (dangerLabel_cases _) in Hlabel.
  rewrite dangerScore_sum, flarePart_getFlareClass in Hlabel.
  fold k f in Hlabel. change (avgWindOf wind) with (getAverage wind speedKey 6) in Hlabel.
  fold v in Hlabel.
  pose proof (contributions_bounds (lastKpOf kp) (getAverage wind speedKey 6)
                (getAverage flares fluxKey 12)) as (Hk & Hv & Hf).
  fold k in Hk. fold v in Hv. fold f in Hf. lia.
Qed.

Lemma high_needs_two_signals_witness :
  exists w',
    analyzeData initialState [KpDataPoint.mk "12:00" 5] (windOf [650]) [] [] []
      world0 = Ok (tt, w')
    /\ DangerIndex.label (dangerIndex (next w')) = "ВЫСОКИЙ"%string
    /\ Z.lt 0 (kpContribution (lastKpOf [KpDataPoint.mk "12:00" 5]))
    /\ Z.lt 0 (windContribution (getAverage (windOf [650]) speedKey 6)).
Proof.
  eexists. split; [vm_compute; reflexivity |]. split; [reflexivity |].
  destruct (high_needs_two_signals initialState [KpDataPoint.mk "12:00" 5]
              (windOf [650]) [] [] [] world0 _ eq_refl eq_refl)
    as [H | [[_ H] | [_ H]]]; [exact H | discriminate H | discriminate H].
Defined.

(** X9.  With no forecast for the next bucket (at most one entry) the
    comparator has nothing to compare, and the forecast paragraph is
    the no-change sentence whatever the Kp and the draws. *)
Theorem forecast_cold_start (render : AppState)
    (kp : list KpDataPoint.t) (wind : list WindDataPoint.t)
    (flares : list FlareDataPoint.t) (protons : list ProtonDataPoint.t)
    (forecast : list ForecastDataPoint.t) (w : World) :
  (List.length forecast <= 1)%nat ->
  exists w' st dyn ph,
    analyzeData render kp wind flares protons forecast w = Ok (tt, w')
    /\ report (next w') = join [st; dyn; noChangeSentence; ph] blankLine.
Proof.
  intros Hlen.
  destruct (analyzeData_run render kp wind flares protons forecast w)
    as (nextKp & w1 & st & ft & w3 & w' & Hn & _ & _ & Hf & Hrun & Hrep & _).
  assert (En : nextKp = lastKpOf kp).
  { pose proof (nextForecastKpOf_cases forecast (lastKpOf kp)) as Hc.
    destruct forecast as [| f0 [| f1 rest]]; try congruence.
    cbn [Datatypes.length] in Hlen. lia. }
  subst nextKp. unfold forecastSection in Hf.
  replace (gtb (lastKpOf kp) (lastKpOf kp)) with false in Hf
    by (symmetry; apply gtb_false; apply Qle_refl).
  replace (ltb (lastKpOf kp) (lastKpOf kp)) with false in Hf
    by (symmetry; apply ltb_false; apply Qle_refl).
  cbn [andb] in Hf. unfold ret in Hf. inversion Hf; subst ft w3.
  exists w', st. do 2 eexists. split; [exact Hrun | exact Hrep].
Qed.

Lemma forecast_cold_start_witness :
  exists w' st dyn ph,
    analyzeData initialState [KpDataPoint.mk "12:00" 6] [] [] []
      [ForecastDataPoint.mk "12:00" 9] world0 = Ok (tt, w')
    /\ report (next w') = join [st; dyn; noChangeSentence; ph] blankLine.
Proof.
  apply (forecast_cold_start initialState [KpDataPoint.mk "12:00" 6] [] [] []
           [ForecastDataPoint.mk "12:00" 9] world0).
  simpl. lia.
Defined.

(** X10.  [pick] uses one draw.  With a draw of [0, 1) it returns an element
    of a non-empty list of options; on an empty list it returns
    [undefined]. *)
Theorem pick_stays_in_range (options : list string) (w : World) :
  fairRandom w ->
  exists r,
    pick options w = Ok (r, advance w)
    /\ (options = [] -> r = None)
    /\ (options <> [] -> exists s, r = Some s /\ In s options).
Proof.
  intros Hf. destruct options as [| o options].
  - exists None. split; [| split; [reflexivity | congruence]].
    rewrite pick_run. unfold at_.
    destruct (_ <? 0)%Z; [reflexivity |].
    destruct (Z.to_nat _); reflexivity.
  - destruct (pick_member (o :: options) w ltac:(discriminate) Hf)
      as (s & Hin & Hp).
    exists (Some s). split; [exact Hp |]. split; [discriminate |].
    intros _. exists s. split; [reflexivity | exact Hin].
Qed.

Lemma pick_stays_in_range_witness :
  exists s, pick ["a"; "b"; "c"]%string world0 = Ok (Some s, advance world0)
            /\ In s ["a"; "b"; "c"]%string.
Proof.
  destruct (pick_stays_in_range ["a"; "b"; "c"]%string world0 fairRandom_world0)
    as (r & Hp & _ & Hs).
  destruct (Hs ltac:(discriminate)) as (s & -> & Hin).
  exists s. split; [exact Hp | exact Hin].
Defined.

(* ================================================================== *)
(** ** Further properties: what a load leaves in the state *)




Lemma forecastSection_draws (nextKp lastKp : Q) (w : World) :
  exists s w', forecastSection nextKp lastKp w = Ok (s, w')
               /\ next w' = next w /\ random w' = random w
               /\ (drawn w' = drawn w \/ drawn w' = S (drawn w)).
Proof.
  unfold forecastSection.
  repeat match goal with
  | |- context [if ?b then _ else _] => destruct b
  end; unfold bind, ret; try rewrite pick_run; do 2 eexists;
    (split; [reflexivity | split; [reflexivity | split; [reflexivity |]]]);
    simpl; auto.
Qed.

(** X12.  A visible load stores the five fetched series as they came, sets
    the error flag to [isDemo] and the loading flag to false, leaves the
    random source as it was and uses one or two draws: one for the
    status phrase and at most one for the forecast phrase. *)
Theorem load_stores_the_snapshot (getTime : string -> Z)
    (render : AppState) (result : SolarData.t) (w : World) :
  exists w',
    loadData getTime render false result w = Ok (tt, w')
    /\ kpData (next w') = SolarData.kp result
    /\ windData (next w') = SolarData.wind result
    /\ flareData (next w') = SolarData.flares result
    /\ forecastData (next w') = SolarData.forecast result
    /\ protonData (next w') = SolarData.protons result
    /\ fetchError (next w') = SolarData.isDemo result
    /\ loading (next w') = false
    /\ random w' = random w
    /\ (drawn w' = S (drawn w) \/ drawn w' = S (S (drawn w))).
Proof.
  destruct (analyzeData_run render (SolarData.kp result) (SolarData.wind result)
              (SolarData.flares result) (SolarData.protons result)
              (SolarData.forecast result) (stored result w))
    as (nextKp & w1 & st & ft & w3 & wA & Hn & Hd & Hs & Hf & HA & _ & _ & Hr & _).
  destruct (loadData_total getTime render result w)
    as (w' & st' & ft' & Hrun & _ & _ & _ & H1 & H2 & H3 & H4 & H5 & H6 & H7).
  destruct (loadData_run getTime render result w wA HA)
    as (w'' & Hrun' & _ & _ & _ & Hrand & Hdrawn).
  rewrite Hrun in Hrun'. inversion Hrun'; subst w''; clear Hrun'.
  exists w'. split; [exact Hrun |].
  repeat (split; [assumption |]).
  split; [rewrite Hrand, Hr; reflexivity |].
  rewrite Hdrawn.
  assert (HwA : drawn wA = drawn w3).
  { unfold analyzeData in HA. unfold bind at 1 in HA. unfold lift in HA.
    rewrite Hn in HA. unfold bind at 1 in HA. rewrite Hd in HA.
    unfold bind at 1 in HA. rewrite Hs in HA.
    unfold bind at 1 in HA. rewrite Hf in HA.
    unfold setReport, update in HA. inversion HA. reflexivity. }
  destruct (forecastSection_draws nextKp (lastKpOf (SolarData.kp result))
              (advance w1)) as (s & w3' & Hf' & _ & _ & Hdr).
  rewrite Hf in Hf'. inversion Hf'; subst s w3'; clear Hf'.
  unfold setDangerIndex, update in Hd. inversion Hd; subst w1.
  rewrite HwA. simpl in Hdr. destruct Hdr as [-> | ->]; auto.
Qed.

(* ================================================================== *)
(** ** Further properties: the badges of the page *)

(** X13.  The proton badge and the storm flag go together: the badge is S0
    exactly when [isProtonStorm] is false, so a CME banner is never
    shown beside an S0 badge. *)
Theorem proton_scale_matches_storm_flag (s : AppState) :
  (fst (protonScale s) = "S0 (Фон)"%string <-> isProtonStorm s = false)
  /\ (isCMESource s = true -> fst (protonScale s) <> "S0 (Фон)"%string).
Proof.
  assert (H : fst (protonScale s) = "S0 (Фон)"%string <-> isProtonStorm s = false).
  { unfold protonScale, isProtonStorm.
    destruct (geb (currentProtonFlux s) 100000) eqn:E5;
    destruct (geb (currentProtonFlux s) 10000) eqn:E4;
    destruct (geb (currentProtonFlux s) 1000) eqn:E3;
    destruct (geb (currentProtonFlux s) 100) eqn:E2;
    destruct (geb (currentProtonFlux s) 10) eqn:E1;
      simpl; split; intros; try reflexivity; try discriminate; by_order. }
  split; [exact H |].
  unfold isCMESource. intros Hc. apply andb_prop in Hc. destruct Hc as [_ Hc].
  intros Hs. apply H in Hs. congruence.
Qed.

(** X14.  The flare intensity word and the flare highlight go together: the
    word is the low one exactly when the class holds neither M nor X,
    and a class that holds an X reads as high even if it holds an M. *)
Theorem flare_intensity_matches_highlight (s : AppState) :
  (intensityDesc s = "НИЗКАЯ"%string <-> isFlareHigh s = false)
  /\ (includes (currentFlareClass s) "X" = true ->
      intensityDesc s = "ВЫСОКАЯ"%string).
Proof.
  unfold intensityDesc, isFlareHigh.
  destruct (includes (currentFlareClass s) "M");
    destruct (includes (currentFlareClass s) "X"); simpl;
    repeat split; intros; try reflexivity; discriminate.
Qed.

(** X15.  The Kp badge and the aurora text use the same storm threshold: the
    badge reads storm exactly when the text promises aurora in middle
    latitudes or further south. *)
Theorem kp_badge_matches_aurora_text (s : AppState) :
  kpBadge s = "БУРЯ"%string <->
  (fst (auroraText s) = "Высокая вероятность в средних широтах."%string
   \/ fst (auroraText s) = "Экстремальная видимость. Южные регионы."%string).
Proof.
  unfold kpBadge, auroraText.
  destruct (geb (currentKp s) 3) eqn:E3; destruct (geb (currentKp s) 4) eqn:E4;
  destruct (geb (currentKp s) 5) eqn:E5; destruct (geb (currentKp s) 7) eqn:E7;
    simpl; split; intros H; try (destruct H as [H | H]); auto;
    try discriminate; by_order.
Qed.

(* ================================================================== *)
(** ** Further properties: ProtonGraph.tsx *)





Lemma even_slot (now : Z) :
  (Z.rem (Math_floor (inject_Z now / 200)) 2 =? 0)%Z = Z.even (now / 200).
Proof.
  unfold Math_floor. change 200 with (inject_Z 200). rewrite <- Zdiv_Qdiv.
  rewrite Zrem_even.
  destruct (Z.even (now / 200)) eqn:E; [reflexivity |].
  apply Z.eqb_neq. intros H. apply (proj1 (Z.sgn_null_iff _)) in H.
  rewrite H in E. discriminate.
Qed.

(** X17.  The impact markers of the proton graph go together: the aircraft
    is marked, the satellite jitters and the rain turns red in exactly
    the same case, a flux of 1000 or more; in that case, and in no
    other, the satellite is crossed out, blinking: the cross is drawn
    while the count of 200-ms slots of the clock is even.  The
    satellite is OK exactly below 100. *)
Theorem proton_graph_markers_agree (flux : Q) (now : Z) :
  (ProtonGraph.crossed (fst (fst (ProtonGraph.satellite flux))) now = true
   <-> 1000 <= flux /\ Z.even (now / 200) = true)
  /\ (0 < snd (ProtonGraph.satellite flux) <-> 1000 <= flux)
  /\ (fst (ProtonGraph.plane flux) <> "OK"%string <-> 1000 <= flux)
  /\ (fst (fst (ProtonGraph.satellite flux)) = "OK"%string <-> flux < 100)
  /\ (ProtonGraph.strokeStyle flux = "#ff1744"%string <-> 1000 <= flux).
Proof.
  unfold ProtonGraph.satellite, ProtonGraph.plane, ProtonGraph.strokeStyle,
    ProtonGraph.crossed.
  rewrite even_slot.
  destruct (geb flux 100) eqn:E1; destruct (geb flux 1000) eqn:E2;
  destruct (geb flux 10000) eqn:E3; simpl;
    repeat split; intros; try reflexivity; try discriminate;
    try congruence; try tauto; by_order.
Qed.


(* ================================================================== *)
(** ** Further properties: AuroraMap.tsx *)

Lemma clamp_lat (lat : Q) :
  let c := Math_max AuroraMap.MIN_LAT (Math_min AuroraMap.MAX_LAT lat) in
  35 <= c /\ c <= 88
  /\ (88 <= lat -> c == 88) /\ (lat <= 35 -> c == 35)
  /\ (35 <= lat -> lat <= 88 -> c == lat).
Proof.
  unfold Math_max, Math_min, AuroraMap.MIN_LAT, AuroraMap.MAX_LAT.
  destruct (Qle_bool 88 lat) eqn:E1.
  - apply Qle_bool_iff in E1. change (Qle_bool 35 88) with true. cbv iota.
    repeat split; intros; lra.
  - apply (geb_false lat 88) in E1.
    destruct (Qle_bool 35 lat) eqn:E2.
    + apply Qle_bool_iff in E2. repeat split; intros; lra.
    + apply (geb_false lat 35) in E2. repeat split; intros; lra.
Qed.

Lemma clamp_lat_mono (a b : Q) :
  a <= b ->
  Math_max AuroraMap.MIN_LAT (Math_min AuroraMap.MAX_LAT a)
  <= Math_max AuroraMap.MIN_LAT (Math_min AuroraMap.MAX_LAT b).
Proof.
  intros Hab.
  unfold Math_max, Math_min, AuroraMap.MIN_LAT, AuroraMap.MAX_LAT.
  destruct (Qle_bool 88 a) eqn:A1; destruct (Qle_bool 88 b) eqn:B1;
    try change (Qle_bool 35 88) with true; cbv iota;
    try apply Qle_bool_iff in A1; try apply Qle_bool_iff in B1;
    try apply (geb_false a 88) in A1; try apply (geb_false b 88) in B1;
    destruct (Qle_bool 35 a) eqn:A2; destruct (Qle_bool 35 b) eqn:B2;
    try apply Qle_bool_iff in A2; try apply Qle_bool_iff in B2;
    try apply (geb_false a 35) in A2; try apply (geb_false b 35) in B2;
    lra.
Qed.

Lemma scale_unit (t h : Q) : 0 <= t -> t <= 1 -> 0 <= h -> 0 <= t * h /\ t * h <= h.
Proof.
  intros H0 H1 Hh. split.
  - apply Qmult_le_0_compat; assumption.
  - rewrite <- (Qmult_1_l h) at 2. apply Qmult_le_compat_r; assumption.
Qed.

Lemma project_y (lat lon w h : Q) :
  snd (AuroraMap.project lat lon w h)
  == (88 - Math_max AuroraMap.MIN_LAT (Math_min AuroraMap.MAX_LAT lat)) / 53 * h.
Proof.
  unfold AuroraMap.project. cbn [snd].
  unfold AuroraMap.MAX_LAT at 1 3. unfold AuroraMap.MIN_LAT at 2.
  assert (E : 88 - 35 == 53) by reflexivity. rewrite E. reflexivity.
Qed.

(** X19.  [project] keeps every point on the canvas: the row lies between 0
    and the height whatever the latitude (latitudes beyond 35..88 land
    on the bottom and top edges), the column lies between 0 and the
    width for a longitude of -180..180, and a point further north is
    never drawn lower. *)
Theorem project_stays_on_canvas (lat lat' lon w h : Q) :
  0 <= w -> 0 <= h -> lat <= lat' ->
  (0 <= snd (AuroraMap.project lat lon w h)
   /\ snd (AuroraMap.project lat lon w h) <= h)
  /\ (-180 <= lon -> lon <= 180 ->
      0 <= fst (AuroraMap.project lat lon w h)
      /\ fst (AuroraMap.project lat lon w h) <= w)
  /\ (88 <= lat -> snd (AuroraMap.project lat lon w h) == 0)
  /\ (lat <= 35 -> snd (AuroraMap.project lat lon w h) == h)
  /\ snd (AuroraMap.project lat' lon w h)
     <= snd (AuroraMap.project lat lon w h).
Proof.
  intros Hw Hh Hlat.
  destruct (clamp_lat lat) as (C1 & C2 & C3 & C4 & _).
  rewrite !project_y.
  set (c := Math_max AuroraMap.MIN_LAT (Math_min AuroraMap.MAX_LAT lat)) in *.
  split; [| split; [| split; [| split]]].
  - apply scale_unit; [| | exact Hh].
    + apply Qle_shift_div_l; [reflexivity | lra].
    + apply Qle_shift_div_r; [reflexivity | lra].
  - intros L1 L2. unfold AuroraMap.project. cbn [fst].
    apply scale_unit; [| | exact Hw].
    + apply Qle_shift_div_l; [reflexivity | lra].
    + apply Qle_shift_div_r; [reflexivity | lra].
  - intros H. rewrite (C3 H). unfold Qdiv. ring.
  - intros H. rewrite (C4 H). field.
  - apply Qmult_le_compat_r; [| exact Hh].
    apply Qmult_le_compat_r; [| discriminate].
    pose proof (clamp_lat_mono lat lat' Hlat). fold c in H. lra.
Qed.

Lemma project_stays_on_canvas_witness :
  0 <= snd (AuroraMap.project 60 30 640 320)
  /\ snd (AuroraMap.project 60 30 640 320) <= 320.
Proof.
  apply (project_stays_on_canvas 60 70 30 640 320); discriminate.
Defined.

(** X20.  For a Kp of at most 16 (the index stops at 9) every slice of the
    oval is drawn: with the two cosines in -1..1 the latitude of the
    oval never falls below the map's southern edge, so the loop never
    skips a longitude.  From Kp 16.5 on (with both factors at their
    worst) it does. *)
Theorem oval_is_never_skipped (kp magFactor nightFactor : Q) :
  kp <= 16 ->
  -1 <= magFactor -> magFactor <= 1 -> -1 <= nightFactor -> nightFactor <= 1 ->
  AuroraMap.drawsSlice (AuroraMap.auroraLat kp magFactor nightFactor) = true
  /\ 67 - 2 * kp <= AuroraMap.auroraLat kp magFactor nightFactor
  /\ AuroraMap.auroraLat kp magFactor nightFactor <= 81 - 2 * kp
  /\ AuroraMap.drawsSlice (AuroraMap.auroraLat (33 # 2) 1 (-1)) = false.
Proof.
  intros Hk M1 M2 N1 N2.
  assert (B : 67 - 2 * kp <= AuroraMap.auroraLat kp magFactor nightFactor
              /\ AuroraMap.auroraLat kp magFactor nightFactor <= 81 - 2 * kp)
    by (unfold AuroraMap.auroraLat; split; lra).
  split; [| split; [apply B | split; [apply B | reflexivity]]].
  unfold AuroraMap.drawsSlice, AuroraMap.MIN_LAT.
  apply negb_true_iff. apply ltb_false. lra.
Qed.

Lemma oval_is_never_skipped_witness :
  AuroraMap.drawsSlice (AuroraMap.auroraLat 9 1 (-1)) = true.
Proof.
  apply (oval_is_never_skipped 9 1 (-1)); discriminate.
Defined.





(** X23.  The colour parameters of the oval stay in range: for a Kp that is
    not negative the strength is within 0..1 and the hue runs from
    green (140) down to yellow (60), which it reaches from Kp 7 on; for
    a night factor of at most 1 the intensity is within 0.3..1. *)
Theorem oval_colour_in_range (kp nightFactor : Q) :
  0 <= kp -> nightFactor <= 1 ->
  (0 <= AuroraMap.kpStrength kp /\ AuroraMap.kpStrength kp <= 1)
  /\ (60 <= AuroraMap.hue kp /\ AuroraMap.hue kp <= 140)
  /\ (7 <= kp -> AuroraMap.hue kp == 60)
  /\ ((3 # 10) <= AuroraMap.intensity nightFactor
      /\ AuroraMap.intensity nightFactor <= 1).
Proof.
  intros Hk Hn.
  assert (S : 0 <= AuroraMap.kpStrength kp /\ AuroraMap.kpStrength kp <= 1
              /\ (7 <= kp -> AuroraMap.kpStrength kp == 1)).
  { unfold AuroraMap.kpStrength, Math_min.
    destruct (Qle_bool 1 (kp / 7)) eqn:E.
    - repeat split; try discriminate; intros; reflexivity.
    - apply (geb_false (kp / 7) 1) in E.
      assert (0 <= kp / 7) by (apply Qle_shift_div_l; [reflexivity | lra]).
      repeat split; try lra.
      intros H7. exfalso.
      assert (1 <= kp / 7) by (apply Qle_shift_div_l; [reflexivity | lra]).
      lra. }
  destruct S as (S0 & S1 & S7).
  unfold AuroraMap.hue. cbv zeta.
  split; [split; assumption |].
  split; [split; lra |].
  split; [intros H7; rewrite (S7 H7); reflexivity |].
  unfold AuroraMap.intensity, Math_max.
  destruct (Qle_bool 0 nightFactor) eqn:E.
  - apply Qle_bool_iff in E. split; lra.
  - split; [discriminate | discriminate].
Qed.

Lemma oval_colour_in_range_witness :
  60 <= AuroraMap.hue 3 /\ AuroraMap.hue 3 <= 140.
Proof.
  apply (oval_colour_in_range 3 0); discriminate.
Defined.





